(** * Snake game engine (snake.js): shallow embedding and verified properties

    The engine of snake.js is a set of functions over process-wide mutable
    variables (snake, direction, food, obstacles, score, ...).  Here the
    variables are the fields of one record [State] that every function takes
    and returns.

    [Math.random()] is modelled by a list of rational draws that the
    functions consume from the front, in the order the source calls it; the
    products and comparisons of the source ([Math.random() * tileCount],
    [Math.random() < 0.2]) are taken over the rationals.  The spawners loop
    until a draw is accepted: a loop that needs a draw when the list is empty
    is [Stuck] (it has not finished with the draws at hand).  Reading
    [snake[0].x] on an empty array is [Throw] (the TypeError JavaScript
    raises).

    [tileCount] is [canvas.width / gridSize] in the source, where the canvas
    comes from the HTML page; it is a parameter of the model.  Drawing, sound
    and the texts of the buttons are left out; of the page only the [hidden]
    class of the game-over overlay is kept. *)

From Stdlib Require Import ZArith QArith Qround String List Lia.
From stdpp Require Import base list.
Import ListNotations.

Local Open Scope Z_scope.

(** ** Outcomes of a call *)

Inductive outcome (A : Type) : Type :=
| Ok (a : A)
| Stuck
| Throw.

Arguments Ok {A} a.
Arguments Stuck {A}.
Arguments Throw {A}.

Definition obind {A B : Type} (m : outcome A) (k : A -> outcome B) : outcome B :=
  match m with
  | Ok a => k a
  | Stuck => Stuck
  | Throw => Throw
  end.

Notation "'do' p <- m ; k" := (obind m (fun p => k))
  (at level 10, p pattern, m at level 100, k at level 200).

(** ** Data *)

(** A JavaScript object [{ x, y }]: a grid cell, or the direction vector. *)
Record Cell : Type := mkCell { x : Z; y : Z }.

(** [a.x === b.x && a.y === b.y] *)
Definition sameCell (a b : Cell) : bool := (x a =? x b) && (y a =? y b).

#[global] Instance Cell_eq_dec : EqDecision Cell.
Proof. intros a b. unfold Decision. decide equality; apply Z.eq_dec. Defined.

(** The global variables of snake.js.  [gameLoop] holds the period of the
    running interval timer ([None] is the source's [null]); [highScore] is
    the number read from [localStorage]; [gameOverHidden] is the [hidden]
    class of the game-over overlay. *)
Record State : Type := mkState {
  snake : list Cell;
  direction : Cell;
  food : Cell;
  obstacles : list Cell;
  score : Z;
  highScore : Z;
  gameLoop : option Z;
  isPaused : bool;
  gameSpeed : Z;
  gameOverHidden : bool
}.

Definition set_snake (v : list Cell) (s : State) : State :=
  mkState v (direction s) (food s) (obstacles s) (score s) (highScore s)
          (gameLoop s) (isPaused s) (gameSpeed s) (gameOverHidden s).
Definition set_direction (v : Cell) (s : State) : State :=
  mkState (snake s) v (food s) (obstacles s) (score s) (highScore s)
          (gameLoop s) (isPaused s) (gameSpeed s) (gameOverHidden s).
Definition set_food (v : Cell) (s : State) : State :=
  mkState (snake s) (direction s) v (obstacles s) (score s) (highScore s)
          (gameLoop s) (isPaused s) (gameSpeed s) (gameOverHidden s).
Definition set_obstacles (v : list Cell) (s : State) : State :=
  mkState (snake s) (direction s) (food s) v (score s) (highScore s)
          (gameLoop s) (isPaused s) (gameSpeed s) (gameOverHidden s).
Definition set_score (v : Z) (s : State) : State :=
  mkState (snake s) (direction s) (food s) (obstacles s) v (highScore s)
          (gameLoop s) (isPaused s) (gameSpeed s) (gameOverHidden s).
Definition set_highScore (v : Z) (s : State) : State :=
  mkState (snake s) (direction s) (food s) (obstacles s) (score s) v
          (gameLoop s) (isPaused s) (gameSpeed s) (gameOverHidden s).
Definition set_gameLoop (v : option Z) (s : State) : State :=
  mkState (snake s) (direction s) (food s) (obstacles s) (score s) (highScore s)
          v (isPaused s) (gameSpeed s) (gameOverHidden s).
Definition set_isPaused (v : bool) (s : State) : State :=
  mkState (snake s) (direction s) (food s) (obstacles s) (score s) (highScore s)
          (gameLoop s) v (gameSpeed s) (gameOverHidden s).
Definition set_gameSpeed (v : Z) (s : State) : State :=
  mkState (snake s) (direction s) (food s) (obstacles s) (score s) (highScore s)
          (gameLoop s) (isPaused s) v (gameOverHidden s).
Definition set_gameOverHidden (v : bool) (s : State) : State :=
  mkState (snake s) (direction s) (food s) (obstacles s) (score s) (highScore s)
          (gameLoop s) (isPaused s) (gameSpeed s) v.

(** Constants of the source. *)
Definition minSpeed : Z := 50.
Definition speedIncrement : Z := 5.
Definition maxAttempts : nat := 10.

(** The four direction vectors the key handler assigns, and the initial one. *)
Definition Up : Cell := mkCell 0 (-1).
Definition Down : Cell := mkCell 0 1.
Definition Left : Cell := mkCell (-1) 0.
Definition Right : Cell := mkCell 1 0.
Definition Neutral : Cell := mkCell 0 0.

(** ** Keyboard input *)

(** [handleKeyPress(e)], with [key] the value of [e.key].  The two
    if-chains of the source run one after the other; the second reads the
    direction the first may have written. *)
Definition handleKeyPress (key : string) (s : State) : State :=
  let s1 :=
    if (key =? "ArrowUp")%string && (y (direction s) =? 0) then set_direction (mkCell 0 (-1)) s
    else if (key =? "ArrowDown")%string && (y (direction s) =? 0) then set_direction (mkCell 0 1) s
    else if (key =? "ArrowLeft")%string && (x (direction s) =? 0) then set_direction (mkCell (-1) 0) s
    else if (key =? "ArrowRight")%string && (x (direction s) =? 0) then set_direction (mkCell 1 0) s
    else s in
  if (key =? "w")%string && (y (direction s1) =? 0) then set_direction (mkCell 0 (-1)) s1
  else if (key =? "s")%string && (y (direction s1) =? 0) then set_direction (mkCell 0 1) s1
  else if (key =? "a")%string && (x (direction s1) =? 0) then set_direction (mkCell (-1) 0) s1
  else if (key =? "d")%string && (x (direction s1) =? 0) then set_direction (mkCell 1 0) s1
  else s1.

(** ** Pause and game over *)

(** [togglePause()] *)
Definition togglePause (s : State) : State :=
  match gameLoop s with
  | Some _ => set_isPaused (negb (isPaused s)) s
  | None => s
  end.

(** [endGame()]: the interval is cleared and the overlay shown. *)
Definition endGame (s : State) : State :=
  set_gameOverHidden false (set_gameLoop None s).

(** ** Draws and array tests *)

(** [a < b] on draws, for [Math.random() < 0.2]. *)
Definition Qltb (a b : Q) : bool := negb (Qle_bool b a).

(** [Math.floor(Math.random() * n)] for the draw [r]. *)
Definition randomIndex (r : Q) (n : Z) : Z := Qfloor (r * inject_Z n).

(** [a.some(e => e.x === c.x && e.y === c.y)] *)
Definition someAt (c : Cell) (a : list Cell) : bool :=
  existsb (fun e => sameCell e c) a.

(** [obstacles.some(other => other !== obstacle && other.x === np.x && ...)]
    where [obstacle] is the object in slot [i]: object identity is the slot
    index, since every obstacle is pushed as a fresh object.  [j] is the
    index of the first element of [a]. *)
Fixpoint someOther (i : nat) (np : Cell) (j : nat) (a : list Cell) : bool :=
  match a with
  | [] => false
  | other :: a' =>
      (negb (Nat.eqb j i) && sameCell other np) || someOther i np (S j) a'
  end.

(** The object literal of the spawners:
    [{ x: Math.floor(Math.random() * n), y: Math.floor(Math.random() * n) }],
    the draw for [x] first. *)
Definition drawnCell (n : Z) (r1 r2 : Q) : Cell :=
  mkCell (randomIndex r1 n) (randomIndex r2 n).

Arguments drawnCell : simpl never.

Section Engine.

(** Number of tiles per grid side. *)
Variable tileCount : Z.

(** The wrap-around of one coordinate:
    [if (v < 0) v = tileCount - 1; if (v >= tileCount) v = 0;] *)
Definition wrap (v : Z) : Z :=
  let v1 := if v <? 0 then tileCount - 1 else v in
  if v1 >=? tileCount then 0 else v1.

(** [moveSnake()]: the new head is unshifted, then the last segment is
    popped, on every call. *)
Definition moveSnake (s : State) : outcome State :=
  match snake s with
  | [] => Throw
  | h :: _ =>
      let newX := wrap (x h + x (direction s)) in
      let newY := wrap (y h + y (direction s)) in
      let head := mkCell newX newY in
      Ok (set_snake (removelast (head :: snake s)) s)
  end.

(** [checkCollision()].  With an empty snake [head] is undefined: the first
    loop does not run and the second throws at its first obstacle. *)
Definition checkCollision (s : State) : outcome bool :=
  match snake s with
  | [] => match obstacles s with [] => Ok false | _ :: _ => Throw end
  | head :: body =>
      Ok (existsb (fun seg => sameCell head seg) body
          || existsb (fun obstacle => sameCell head obstacle) (obstacles s))
  end.

(** [checkFoodCollision()] *)
Definition checkFoodCollision (s : State) : outcome bool :=
  match snake s with
  | [] => Throw
  | head :: _ => Ok (sameCell head (food s))
  end.

(** The [while (!validPosition)] loop shared by [spawnFood] and
    [spawnObstacle]: two draws per candidate, x first; no bound on the
    number of rounds. *)
Fixpoint rejectionLoop (valid : Cell -> bool) (rs : list Q)
  : outcome (Cell * list Q) :=
  match rs with
  | r1 :: r2 :: rest =>
      let c := drawnCell tileCount r1 r2 in
      if valid c then Ok (c, rest) else rejectionLoop valid rest
  | _ => Stuck
  end.

(** The acceptance test of [spawnFood]. *)
Definition foodValid (s : State) (newFood : Cell) : bool :=
  negb (someAt newFood (snake s)) && negb (someAt newFood (obstacles s)).

(** [spawnFood()] *)
Definition spawnFood (s : State) (rs : list Q) : outcome (State * list Q) :=
  do (newFood, rest) <- rejectionLoop (foodValid s) rs;
  Ok (set_food newFood s, rest).

(** The acceptance test of [spawnObstacle]. *)
Definition obstacleValid (s : State) (newObstacle : Cell) : bool :=
  negb (someAt newObstacle (snake s))
  && negb (sameCell (food s) newObstacle)
  && negb (someAt newObstacle (obstacles s)).

(** [spawnObstacle()] *)
Definition spawnObstacle (s : State) (rs : list Q) : outcome (State * list Q) :=
  do (newObstacle, rest) <- rejectionLoop (obstacleValid s) rs;
  Ok (set_obstacles (obstacles s ++ [newObstacle]) s, rest).

(** [eatFood()].  The score is raised, the last segment is pushed a second
    time, an obstacle is spawned on a multiple of 50, the interval is
    shortened and rescheduled, and a new food is placed.  [%] is the
    JavaScript remainder.  An empty snake cannot get here ([update] calls
    [moveSnake] first); the source would push an object without
    coordinates, which [Cell] cannot hold. *)
Definition eatFood (s : State) (rs : list Q) : outcome (State * list Q) :=
  let s1 := set_score (score s + 10) s in
  let s2 := if score s1 >? highScore s1 then set_highScore (score s1) s1 else s1 in
  match last (snake s2) with
  | None => Throw
  | Some tail =>
      let s3 := set_snake (snake s2 ++ [mkCell (x tail) (y tail)]) s2 in
      do (s4, rs4) <- (if (score s3 >=? 50) && (Z.rem (score s3) 50 =? 0)
                        then spawnObstacle s3 rs else Ok (s3, rs));
      let s5 :=
        if gameSpeed s4 >? minSpeed then
          let g := Z.max minSpeed (gameSpeed s4 - speedIncrement) in
          set_gameLoop (Some g) (set_gameSpeed g s4)
        else s4 in
      spawnFood s5 rs4
  end.

(** One attempt of the obstacle mover: the neighbour in direction [d]
    (0 up, 1 right, 2 down, 3 left; any other value leaves the copy as it
    is), wrapped. *)
Definition stepCandidate (d : Z) (obstacle : Cell) : Cell :=
  let p :=
    if d =? 0 then mkCell (x obstacle) (y obstacle - 1)
    else if d =? 1 then mkCell (x obstacle + 1) (y obstacle)
    else if d =? 2 then mkCell (x obstacle) (y obstacle + 1)
    else if d =? 3 then mkCell (x obstacle - 1) (y obstacle)
    else mkCell (x obstacle) (y obstacle) in
  mkCell (wrap (x p)) (wrap (y p)).

(** The acceptance test of the obstacle mover for the obstacle in slot [i]. *)
Definition moveValid (i : nat) (newPosition : Cell) (s : State) : bool :=
  negb (someAt newPosition (snake s))
  && negb (sameCell (food s) newPosition)
  && negb (someOther i newPosition 0 (obstacles s)).

(** [while (!validPosition && attempts < maxAttempts)]: one draw per
    attempt; [Some] is the accepted candidate, [None] is ten rejections. *)
Fixpoint relocate (attempts : nat) (i : nat) (obstacle : Cell) (s : State)
         (rs : list Q) : outcome (option Cell * list Q) :=
  match attempts with
  | O => Ok (None, rs)
  | S k =>
      match rs with
      | [] => Stuck
      | r :: rest =>
          let newPosition := stepCandidate (randomIndex r 4) obstacle in
          if moveValid i newPosition s then Ok (Some newPosition, rest)
          else relocate k i obstacle s rest
      end
  end.

(** The callback of [obstacles.forEach] for the obstacle in slot [i]. *)
Definition moveObstacle (i : nat) (s : State) (rs : list Q)
  : outcome (State * list Q) :=
  match obstacles s !! i with
  | None => Ok (s, rs)
  | Some obstacle =>
      match rs with
      | [] => Stuck
      | r0 :: rest =>
          if Qltb r0 (2 # 10) then
            do (found, rest') <- relocate maxAttempts i obstacle s rest;
            match found with
            | Some newPosition =>
                Ok (set_obstacles (<[i := newPosition]> (obstacles s)) s, rest')
            | None => Ok (s, rest')
            end
          else Ok (s, rest)
      end
  end.

(** [forEach] visits the slots in order; each callback sees the moves of
    the earlier ones. *)
Fixpoint forEachSlot (slots : list nat) (s : State) (rs : list Q)
  : outcome (State * list Q) :=
  match slots with
  | [] => Ok (s, rs)
  | i :: slots' =>
      do (s', rs') <- moveObstacle i s rs;
      forEachSlot slots' s' rs'
  end.

(** [moveObstacles()] *)
Definition moveObstacles (s : State) (rs : list Q) : outcome (State * list Q) :=
  forEachSlot (seq 0 (length (obstacles s))) s rs.

(** [update()], the body of one tick. *)
Definition update (s : State) (rs : list Q) : outcome (State * list Q) :=
  if isPaused s then Ok (s, rs)
  else
    do s1 <- moveSnake s;
    do hit <- checkCollision s1;
    if hit : bool then Ok (endGame s1, rs)
    else
      do eaten <- checkFoodCollision s1;
      do (s2, rs2) <- (if eaten : bool then eatFood s1 rs else Ok (s1, rs));
      if score s2 >=? 200 then moveObstacles s2 rs2 else Ok (s2, rs2).

(** [resetGame()] *)
Definition resetGame (s : State) (rs : list Q) : outcome (State * list Q) :=
  let s1 := set_snake [mkCell 10 10] s in
  let s2 := set_direction (mkCell 0 0) s1 in
  let s3 := set_score 0 s2 in
  let s4 := set_obstacles [] s3 in
  let s5 := set_gameSpeed 150 s4 in
  let s6 := set_gameOverHidden true s5 in
  do (s7, rest) <- spawnFood s6 rs;
  Ok (set_isPaused false (set_gameLoop (Some (gameSpeed s7)) s7), rest).

(** [startGame()] *)
Definition startGame (s : State) (rs : list Q) : outcome (State * list Q) :=
  match gameLoop s with
  | None => Ok (set_gameLoop (Some 150) (set_gameSpeed 150 s), rs)
  | Some _ => resetGame s rs
  end.

(** ** Events *)

(** What the page delivers to the engine: a key, a button, or a firing of
    the interval timer.  The timer fires only while an interval is set. *)
Inductive Event : Type :=
| KeyDown (key : string)
| ClickStart
| ClickPause
| ClickRestart
| Tick.

Definition fire (e : Event) (s : State) (rs : list Q) : outcome (State * list Q) :=
  match e with
  | KeyDown key => Ok (handleKeyPress key s, rs)
  | ClickStart => startGame s rs
  | ClickPause => Ok (togglePause s, rs)
  | ClickRestart => resetGame s rs
  | Tick => match gameLoop s with
            | Some _ => update s rs
            | None => Ok (s, rs)
            end
  end.

Fixpoint run (es : list Event) (s : State) (rs : list Q) : outcome (State * list Q) :=
  match es with
  | [] => Ok (s, rs)
  | e :: es' => do (s', rs') <- fire e s rs; run es' s' rs'
  end.

End Engine.

(** The variables as snake.js initialises them; [saved] is what
    [localStorage] holds for the high score (0 if nothing), [hidden] whether
    the page starts with the game-over overlay hidden. *)
Definition initialState (saved : Z) (hidden : bool) : State :=
  mkState [mkCell 10 10] (mkCell 0 0) (mkCell 15 15) [] 0 saved None false 250 hidden.

(** A draw of [Math.random()] lies in [0, 1). *)
Definition unitDraw (r : Q) : Prop := (0 <= r)%Q /\ (r < 1)%Q.

(** The states the game can be in: those some sequence of events leads to
    from the initial one, for some draws of the random source. *)
Definition reachable (tileCount : Z) (s : State) : Prop :=
  exists saved hidden es rs rs',
    Forall unitDraw rs /\
    run tileCount es (initialState saved hidden) rs = Ok (s, rs').

(** ** Vocabulary of the statements *)

(** The direction a key asks for: the vector its branch of [handleKeyPress]
    assigns when the branch is taken. *)
Definition keyCommand (key : string) : option Cell :=
  if ((key =? "ArrowUp") || (key =? "w"))%string then Some Up
  else if ((key =? "ArrowDown") || (key =? "s"))%string then Some Down
  else if ((key =? "ArrowLeft") || (key =? "a"))%string then Some Left
  else if ((key =? "ArrowRight") || (key =? "d"))%string then Some Right
  else None.

(** The 180-degree turn of a direction. *)
Definition reverseOf (d : Cell) : Cell := mkCell (- x d) (- y d).

(** A direction of motion: one of the four unit vectors. *)
Definition cardinal (d : Cell) : Prop :=
  d = Up \/ d = Down \/ d = Left \/ d = Right.

(** A cell of the [n] by [n] grid. *)
Definition inGrid (n : Z) (c : Cell) : Prop :=
  0 <= x c < n /\ 0 <= y c < n.

(** [c'] is the wrap-around neighbour of [c] in direction [d]. *)
Definition wrapStep (n : Z) (d c c' : Cell) : Prop :=
  x c' = (x c + x d + n) mod n /\ y c' = (y c + y d + n) mod n.

(** The interval after one food: [gameSpeed] as [eatFood] leaves it. *)
Definition nextSpeed (g : Z) : Z :=
  if g >? minSpeed then Z.max minSpeed (g - speedIncrement) else g.

(** Whether [eatFood] spawns an obstacle at the new score [sc]. *)
Definition obstacleDue (sc : Z) : bool := (sc >=? 50) && (Z.rem sc 50 =? 0).

(** The interval is at least [minSpeed], the snake has a head, the score is
    not negative. *)
Definition sane (s : State) : Prop :=
  minSpeed <= gameSpeed s /\ snake s <> [] /\ 0 <= score s.

(** The obstacles are cells of the grid and the draws still to come are
    draws of [Math.random()]. *)
Definition tidy (n : Z) (s : State) (rs : list Q) : Prop :=
  Forall (inGrid n) (obstacles s) /\ Forall unitDraw rs.

(** The states in which [update] calls [eatFood]: a tick of a running game
    has moved the snake, there is no collision, and the head is on the
    food. *)
Definition eats (n : Z) (s : State) : Prop :=
  exists s0,
    reachable n s0 /\ gameLoop s0 <> None /\ isPaused s0 = false /\
    moveSnake n s0 = Ok s /\
    checkCollision s = Ok false /\ checkFoodCollision s = Ok true.

(** Concrete games on the 20 by 20 grid.  [tile k] is the draw that
    [Math.floor(r * 20)] turns into [k]. *)
Definition tile (k : Z) : Q := k # 20.

(** Restart with the food placed right of the snake, then the Right key. *)
Definition hungry : State :=
  mkState [mkCell 10 10] Right (mkCell 11 10) [] 0 0 (Some 150) false 150 true.

(** [hungry] one tick later: the food at (11, 10) eaten, the next one at
    (12, 10). *)
Definition fed : State :=
  mkState [mkCell 11 10; mkCell 11 10] Right (mkCell 12 10) [] 10 10
          (Some 145) false 145 true.

(** Two meals, one more step to the right, then Up and Left between two
    ticks, and the tick that follows: the head runs into the body. *)
Definition gameOverEvents : list Event :=
  [ClickRestart; KeyDown "ArrowRight"; Tick; Tick; Tick;
   KeyDown "ArrowUp"; KeyDown "ArrowLeft"; Tick].

Definition gameOverDraws : list Q :=
  [tile 11; tile 10; tile 12; tile 10; tile 0; tile 0].

Definition gameOver : State :=
  mkState [mkCell 12 10; mkCell 13 10; mkCell 12 10] Left (mkCell 0 0) [] 20 20
          None false 140 false.

(** Four meals in a row: score 40, the fifth food straight ahead. *)
Definition fourMeals : State :=
  mkState [mkCell 14 10; mkCell 13 10; mkCell 12 10; mkCell 11 10; mkCell 11 10]
          Right (mkCell 15 10) [] 40 40 (Some 130) false 130 true.

(** A late game: one obstacle, the food right of it. *)
Definition lateGame : State :=
  mkState [mkCell 10 10] Right (mkCell 6 5) [mkCell 5 5] 200 200
          (Some 50) false 50 true.

(** Start, then the Right key: the snake is about to leave (10, 10). *)
Definition rolling : State :=
  mkState [mkCell 10 10] Right (mkCell 15 15) [] 0 0 (Some 150) false 150 true.

(** A snake of two segments with its head on the left edge, heading left. *)
Definition leftEdge : State :=
  mkState [mkCell 0 7; mkCell 1 7] Left (mkCell 15 15) [] 10 10
          (Some 145) false 145 true.

(** [fourMeals] after the move of the next tick: the head is on the food. *)
Definition fifthBite : State :=
  set_snake [mkCell 15 10; mkCell 14 10; mkCell 13 10; mkCell 12 10; mkCell 11 10]
            fourMeals.

(** ** Vocabulary of the further properties *)

(** What [handleKeyPress] comes to: the command of the key is taken when the
    snake is not moving along the axis of the command. *)
Definition turn (key : string) (s : State) : State :=
  match keyCommand key with
  | Some d =>
      if (if x d =? 0 then y (direction s) =? 0 else x (direction s) =? 0)
      then set_direction d s
      else s
  | None => s
  end.

(** The five values the variable [direction] is ever given. *)
Definition fiveWay (d : Cell) : Prop := cardinal d \/ d = Neutral.

(** The score counts the segments grown, and the obstacles count the
    multiples of 50 the score has passed. *)
Definition tally (s : State) : Prop :=
  score s = 10 * (Z.of_nat (length (snake s)) - 1) /\
  Z.of_nat (length (obstacles s)) = score s / 50.

(** [gameSpeed] stays between [minSpeed] and its first value, and an
    interval that is set has [gameSpeed] as its period, 150 at most. *)
Definition timed (s : State) : Prop :=
  minSpeed <= gameSpeed s <= 250 /\
  forall period, gameLoop s = Some period ->
                 period = gameSpeed s /\ period <= 150.

(** The food lies on no segment of the snake and on no obstacle. *)
Definition foodFree (s : State) : Prop :=
  (food s ∉ snake s) /\ (food s ∉ obstacles s).

(** Every cell of the state is a cell of the grid, and the draws to come
    are draws of [Math.random()]. *)
Definition gridded (n : Z) (s : State) (rs : list Q) : Prop :=
  Forall (inGrid n) (snake s) /\ inGrid n (food s) /\ tidy n s rs.

(** Every pair of draws makes a cell the test [valid] rejects. *)
Fixpoint rejectedAll (n : Z) (valid : Cell -> bool) (rs : list Q) : bool :=
  match rs with
  | r1 :: r2 :: rest =>
      negb (valid (drawnCell n r1 r2)) && rejectedAll n valid rest
  | _ => true
  end.

(** [moveSnake()] called [k] times in a row. *)
Definition moves (n : Z) (k : nat) (s : State) : outcome State :=
  Nat.iter k (fun o => obind o (moveSnake n)) (Ok s).

(** The events that neither start nor steer a game: the timer and the
    Pause button. *)
Definition idleEvent (e : Event) : Prop := e = Tick \/ e = ClickPause.

(** Five meals in a row: score 50 and the first obstacle. *)
Definition fiveMeals : State :=
  mkState [mkCell 15 10; mkCell 14 10; mkCell 13 10; mkCell 12 10; mkCell 11 10;
           mkCell 11 10]
          Right (mkCell 1 0) [mkCell 0 0] 50 50 (Some 125) false 125 true.

(** The game of [gameOverEvents] before its last tick: the snake has turned
    back on itself. *)
Definition doomed : State :=
  mkState [mkCell 13 10; mkCell 12 10; mkCell 11 10] Left (mkCell 0 0) [] 20 20
          (Some 140) false 140 true.

(** A grid of one tile with the snake on it. *)
Definition fullTiny : State :=
  mkState [mkCell 0 0] Neutral (mkCell 0 0) [] 0 0 (Some 150) false 150 true.

(** No obstacle is on a segment of the snake. *)
Definition clearOfSnake (s : State) : Prop :=
  Forall (fun o => o ∉ snake s) (obstacles s).

(** The segments are pairwise distinct, except that the last one may lie on
    the cell of the one before it. *)
Definition tailRepeats (s : State) : Prop :=
  NoDup (removelast (snake s)) /\
  (NoDup (snake s) \/ exists front t, snake s = front ++ [t; t]).

(** One meal and one more step: two segments on two cells, the food
    straight ahead. *)
Definition twoLong : State :=
  mkState [mkCell 12 10; mkCell 11 10] Right (mkCell 13 10) [] 10 10
          (Some 145) false 145 true.

(** [twoLong] one tick later. *)
Definition threeLong : State :=
  mkState [mkCell 13 10; mkCell 12 10; mkCell 12 10] Right (mkCell 3 3) [] 20 20
          (Some 140) false 140 true.

(** Ten meals in a row, the tenth across the right edge: score 100 and two
    obstacles. *)
Definition tenMeals : State :=
  mkState [mkCell 0 10; mkCell 19 10; mkCell 18 10; mkCell 17 10; mkCell 16 10;
           mkCell 15 10; mkCell 14 10; mkCell 13 10; mkCell 12 10; mkCell 11 10;
           mkCell 11 10]
          Right (mkCell 3 3) [mkCell 0 0; mkCell 5 5] 100 100
          (Some 100) false 100 true.

(** ** Basic facts *)

Lemma cell_eta (c : Cell) : mkCell (x c) (y c) = c.
Proof. destruct c. reflexivity. Qed.

Lemma sameCell_true (a b : Cell) : sameCell a b = true <-> a = b.
Proof.
  unfold sameCell. destruct a as [ax ay], b as [bx0 by0]. simpl.
  rewrite andb_true_iff, !Z.eqb_eq. split.
  - intros [-> ->]. reflexivity.
  - intros E. inversion E. auto.
Qed.

Lemma sameCell_false (a b : Cell) : sameCell a b = false <-> a <> b.
Proof.
  rewrite <- sameCell_true. destruct (sameCell a b); split; congruence.
Qed.

Lemma sameCell_sym (a b : Cell) : sameCell a b = sameCell b a.
Proof. unfold sameCell. rewrite (Z.eqb_sym (x a)), (Z.eqb_sym (y a)). reflexivity. Qed.

Lemma someAt_true (c : Cell) (a : list Cell) : someAt c a = true <-> c ∈ a.
Proof.
  unfold someAt. rewrite existsb_exists, list_elem_of_In. split.
  - intros (e & Hin & He). apply sameCell_true in He. subst. exact Hin.
  - intros Hin. exists c. split; [exact Hin | apply sameCell_true; reflexivity].
Qed.

Lemma someAt_false (c : Cell) (a : list Cell) : someAt c a = false <-> c ∉ a.
Proof.
  rewrite <- someAt_true. destruct (someAt c a); split; congruence.
Qed.

Lemma headAt_true (c : Cell) (a : list Cell) :
  existsb (fun e => sameCell c e) a = true <-> c ∈ a.
Proof.
  rewrite existsb_exists, list_elem_of_In. split.
  - intros (e & Hin & He). apply sameCell_true in He. subst. exact Hin.
  - intros Hin. exists c. split; [exact Hin | apply sameCell_true; reflexivity].
Qed.

(** ** Input *)

(** One key, four possible directions of motion: the branch guarded by the
    key is the only one that can fire, and its axis test fails. *)
Ltac key_case Hd Hk :=
  simpl in Hk |- *;
  destruct Hd as [E|[E|[E|E]]]; rewrite E in Hk |- *; simpl in Hk |- *;
  try discriminate Hk; reflexivity.

(** C9: a single key whose command is the reverse of the current direction
    of motion is ignored: the handler leaves the state, and so the
    direction, as it was. *)
Theorem handleKeyPress_no_reversal (key : string) (s : State) :
  cardinal (direction s) ->
  keyCommand key = Some (reverseOf (direction s)) ->
  handleKeyPress key s = s /\ direction (handleKeyPress key s) = direction s.
Proof.
  intros Hd Hk.
  assert (E : handleKeyPress key s = s); [| rewrite E; auto].
  unfold keyCommand in Hk. unfold handleKeyPress.
  destruct (String.eqb_spec key "ArrowUp") as [->|]; [key_case Hd Hk|].
  destruct (String.eqb_spec key "w") as [->|]; [key_case Hd Hk|].
  destruct (String.eqb_spec key "ArrowDown") as [->|]; [key_case Hd Hk|].
  destruct (String.eqb_spec key "s") as [->|]; [key_case Hd Hk|].
  destruct (String.eqb_spec key "ArrowLeft") as [->|]; [key_case Hd Hk|].
  destruct (String.eqb_spec key "a") as [->|]; [key_case Hd Hk|].
  destruct (String.eqb_spec key "ArrowRight") as [->|]; [key_case Hd Hk|].
  destruct (String.eqb_spec key "d") as [->|]; [key_case Hd Hk|].
  simpl in Hk.
  discriminate.
Qed.

(** ** Collision detection *)

(** C5: with head [head] and body [body], [checkCollision] answers, and its
    answer is true exactly when the head is one of the body segments or one
    of the obstacles.  Where the head lies on the grid plays no part: a head
    on an edge of the grid that is on no segment and no obstacle is no
    collision. *)
Theorem checkCollision_iff (s : State) (head : Cell) (body : list Cell) :
  snake s = head :: body ->
  (exists b, checkCollision s = Ok b /\
             (b = true <-> head ∈ body \/ head ∈ obstacles s)) /\
  (forall n : Z,
      x head = 0 \/ x head = n - 1 \/ y head = 0 \/ y head = n - 1 ->
      head ∉ body -> head ∉ obstacles s -> checkCollision s = Ok false).
Proof.
  intros Hs. unfold checkCollision. rewrite Hs. split.
  - eexists. split; [reflexivity|].
    rewrite orb_true_iff, !headAt_true. reflexivity.
  - intros n _ Hb Ho. f_equal. apply orb_false_iff.
    split; apply not_true_is_false; rewrite headAt_true; assumption.
Qed.

(** ** Motion *)

Section Grid.

Variable n : Z.
Hypothesis n_pos : 0 < n.

Lemma wrap_mod (v d : Z) :
  0 <= v < n -> -1 <= d <= 1 -> wrap n (v + d) = (v + d + n) mod n.
Proof using n_pos.
  intros Hv Hd. unfold wrap.
  destruct (Z.ltb_spec (v + d) 0).
  - assert (v + d = -1) as -> by lia.
    destruct (Z.geb_spec (n - 1) n); [lia|].
    replace (-1 + n) with (n - 1) by lia.
    symmetry. apply Z.mod_small. lia.
  - destruct (Z.geb_spec (v + d) n).
    + assert (v + d = n) as -> by lia.
      replace (n + n) with (0 + 2 * n) by lia.
      rewrite Z.mod_add by lia. reflexivity.
    + replace (v + d + n) with (v + d + 1 * n) by lia.
      rewrite Z.mod_add by lia. symmetry. apply Z.mod_small. lia.
Qed.

Lemma mod_reduce (e v k : Z) : 0 <= v < n -> e = v + k * n -> e mod n = v.
Proof using n_pos.
  intros Hv ->. rewrite Z.mod_add by lia. apply Z.mod_small. exact Hv.
Qed.

Lemma wrap_inGrid (v : Z) : 0 <= wrap n v < n.
Proof using n_pos.
  unfold wrap. destruct (Z.ltb_spec v 0).
  - destruct (Z.geb_spec (n - 1) n); lia.
  - destruct (Z.geb_spec v n); lia.
Qed.

Lemma removelast_cons (h : Cell) (l : list Cell) :
  l <> [] -> removelast (h :: l) = h :: removelast l.
Proof. destruct l; [congruence | reflexivity]. Qed.

(** C4: for a head inside the grid and any of the five direction vectors,
    [moveSnake] puts the cell ((x + dx + n) mod n, (y + dy + n) mod n) at
    the front of the snake, before the old segments (of which it drops the
    last one), and changes nothing else.  At the four edges the head
    re-enters on the opposite side. *)
Theorem moveSnake_wraps_head (s : State) (hx hy : Z) (body : list Cell) :
  snake s = mkCell hx hy :: body ->
  0 <= hx < n -> 0 <= hy < n ->
  cardinal (direction s) \/ direction s = Neutral ->
  let head' := mkCell ((hx + x (direction s) + n) mod n)
                      ((hy + y (direction s) + n) mod n) in
  moveSnake n s = Ok (set_snake (head' :: removelast (snake s)) s) /\
  (direction s = Left -> hx = 0 -> head' = mkCell (n - 1) hy) /\
  (direction s = Right -> hx = n - 1 -> head' = mkCell 0 hy) /\
  (direction s = Up -> hy = 0 -> head' = mkCell hx (n - 1)) /\
  (direction s = Down -> hy = n - 1 -> head' = mkCell hx 0).
Proof using n_pos.
  intros Hs Hx Hy Hd head'.
  assert (Hdx : -1 <= x (direction s) <= 1 /\ -1 <= y (direction s) <= 1).
  { destruct Hd as [[E|[E|[E|E]]]|E]; rewrite E; simpl; lia. }
  destruct Hdx as [Hdx Hdy].
  split.
  - unfold moveSnake. rewrite Hs. simpl x. simpl y.
    rewrite !wrap_mod by assumption.
    rewrite removelast_cons by discriminate. reflexivity.
  - subst head'.
    repeat split; intros E ->; rewrite E; simpl; f_equal;
      first [ apply (mod_reduce _ _ 0); lia
            | apply (mod_reduce _ _ 1); lia
            | apply (mod_reduce _ _ 2); lia ].
Qed.

End Grid.

(** ** Inverting calls *)

Lemma obind_Ok {A B : Type} (m : outcome A) (k : A -> outcome B) (b : B) :
  obind m k = Ok b -> exists a, m = Ok a /\ k a = Ok b.
Proof. destruct m; simpl; intros H; try discriminate. eauto. Qed.

Ltac inv_bind H :=
  let a := fresh "a" in
  let Ha := fresh "Ha" in
  apply obind_Ok in H; destruct H as (a & Ha & H).

Lemma set_obstacles_same (s : State) : set_obstacles (obstacles s) s = s.
Proof. destruct s. reflexivity. Qed.

(** Lists of draws are read two at a time by the spawners. *)
Lemma pairs_ind (P : list Q -> Prop) :
  P [] -> (forall r, P [r]) ->
  (forall r1 r2 rest, P rest -> P (r1 :: r2 :: rest)) ->
  forall rs, P rs.
Proof.
  intros H0 H1 H2 rs.
  assert (H : P rs /\ forall r, P (r :: rs)); [| apply H].
  induction rs as [|r rs [IH1 IH2]]; split; auto.
Qed.

Lemma rejectionLoop_inv (n : Z) (valid : Cell -> bool) (rs : list Q)
      (c : Cell) (rest : list Q) :
  rejectionLoop n valid rs = Ok (c, rest) -> valid c = true.
Proof.
  induction rs as [| r | r1 r2 rs IH] using pairs_ind;
    cbn [rejectionLoop]; try discriminate.
  destruct (valid (drawnCell n r1 r2)) eqn:E.
  - intros H. inversion H. subst. exact E.
  - exact IH.
Qed.

Lemma spawnFood_inv (n : Z) (s s' : State) (rs rs' : list Q) :
  spawnFood n s rs = Ok (s', rs') ->
  exists c, s' = set_food c s /\ foodValid s c = true.
Proof.
  unfold spawnFood. intros H. inv_bind H. destruct a as [c rest].
  inversion H. subst. exists c. split; [reflexivity|].
  eapply rejectionLoop_inv. exact Ha.
Qed.

Lemma spawnObstacle_inv (n : Z) (s s' : State) (rs rs' : list Q) :
  spawnObstacle n s rs = Ok (s', rs') ->
  exists c, s' = set_obstacles (obstacles s ++ [c]) s /\ obstacleValid s c = true.
Proof.
  unfold spawnObstacle. intros H. inv_bind H. destruct a as [c rest].
  inversion H. subst. exists c. split; [reflexivity|].
  eapply rejectionLoop_inv. exact Ha.
Qed.

Lemma eatFood_inv (n : Z) (s s' : State) (rs rs' : list Q) :
  eatFood n s rs = Ok (s', rs') ->
  exists tail extra,
    last (snake s) = Some tail /\
    snake s' = snake s ++ [tail] /\
    score s' = score s + 10 /\
    gameSpeed s' = nextSpeed (gameSpeed s) /\
    obstacles s' = obstacles s ++ extra /\
    (if obstacleDue (score s + 10)
     then exists c, extra = [c] /\
                    (c ∉ snake s ++ [tail]) /\ c <> food s /\ (c ∉ obstacles s)
     else extra = []) /\
    (food s' ∉ snake s') /\ (food s' ∉ obstacles s') /\
    direction s' = direction s /\ isPaused s' = isPaused s /\
    (gameLoop s <> None -> gameLoop s' <> None).
Proof.
  unfold eatFood. intros H.
  set (s1 := set_score (score s + 10) s) in *.
  set (s2 := if score s1 >? highScore s1 then set_highScore (score s1) s1 else s1) in *.
  assert (E2 : snake s2 = snake s /\ score s2 = score s + 10 /\
               gameSpeed s2 = gameSpeed s /\ obstacles s2 = obstacles s /\
               food s2 = food s /\ direction s2 = direction s /\
               isPaused s2 = isPaused s /\ gameLoop s2 = gameLoop s).
  { subst s2. destruct (score s1 >? highScore s1); simpl; repeat split; reflexivity. }
  destruct E2 as (Esn & Esc & Esp & Eob & Efo & Edi & Epa & Egl).
  clearbody s2. clear s1.
  destruct (last (snake s2)) as [tail|] eqn:Hl; [|discriminate].
  rewrite Esn in Hl.
  inv_bind H. destruct a as [s4 rs4].
  exists tail.
  match type of H with
  | spawnFood _ ?st _ = _ => set (s5 := st) in *
  end.
  apply spawnFood_inv in H. destruct H as (cf & -> & Hcf).
  unfold foodValid in Hcf. apply andb_true_iff in Hcf.
  destruct Hcf as [Hcf1 Hcf2].
  apply negb_true_iff in Hcf1, Hcf2.
  apply someAt_false in Hcf1, Hcf2.
  assert (E5 : snake s5 = snake s4 /\ score s5 = score s4 /\
               gameSpeed s5 = nextSpeed (gameSpeed s4) /\
               obstacles s5 = obstacles s4 /\ direction s5 = direction s4 /\
               isPaused s5 = isPaused s4 /\
               (gameLoop s4 <> None -> gameLoop s5 <> None)).
  { subst s5. unfold nextSpeed. destruct (gameSpeed s4 >? minSpeed); simpl;
      repeat split; auto; discriminate. }
  destruct E5 as (E5sn & E5sc & E5sp & E5ob & E5di & E5pa & E5gl).
  simpl. simpl in Ha. rewrite Esc in Ha. fold (obstacleDue (score s + 10)) in Ha.
  destruct (obstacleDue (score s + 10)).
  - apply spawnObstacle_inv in Ha. destruct Ha as (c & -> & Hc).
    simpl in *. exists [c].
    unfold obstacleValid in Hc. simpl in Hc.
    apply andb_true_iff in Hc. destruct Hc as [Hc Hc3].
    apply andb_true_iff in Hc. destruct Hc as [Hc1 Hc2].
    apply negb_true_iff in Hc1, Hc2, Hc3.
    apply someAt_false in Hc1, Hc3. apply sameCell_false in Hc2.
    rewrite cell_eta in *.
    rewrite Esn in *. rewrite Eob in *. rewrite Efo in *.
    rewrite E5sn, E5sc, E5sp, E5ob, E5di, E5pa in *.
    rewrite Esp.
    split; [assumption|]. split; [reflexivity|]. split; [assumption|].
    split; [reflexivity|]. split; [reflexivity|].
    split; [exists c; repeat split; auto|].
    split; [assumption|]. split; [assumption|].
    split; [assumption|]. split; [assumption|].
    intros Hg. apply E5gl. rewrite Egl. exact Hg.
  - inversion Ha. subst s4 rs4. simpl in *. exists [].
    rewrite cell_eta in *.
    rewrite E5sn, E5sc, E5sp, E5ob, E5di, E5pa in *. simpl in *.
    rewrite Esn, ?Eob in *. rewrite Esp. rewrite app_nil_r.
    split; [assumption|]. split; [reflexivity|]. split; [assumption|].
    split; [reflexivity|]. split; [reflexivity|].
    split; [reflexivity|].
    split; [assumption|]. split; [assumption|].
    split; [assumption|]. split; [assumption|].
    intros Hg. apply E5gl. simpl. rewrite Egl. exact Hg.
Qed.

(** ** The obstacle mover changes the obstacle cells only *)

Lemma moveObstacle_frame (n : Z) (i : nat) (s s' : State) (rs rs' : list Q) :
  moveObstacle n i s rs = Ok (s', rs') ->
  exists obs', s' = set_obstacles obs' s /\ length obs' = length (obstacles s).
Proof.
  unfold moveObstacle. intros H.
  assert (Same : exists obs', s = set_obstacles obs' s /\
                              length obs' = length (obstacles s)).
  { exists (obstacles s). rewrite set_obstacles_same. auto. }
  destruct (obstacles s !! i) as [o|]; [| inversion H; subst; exact Same].
  destruct rs as [|r0 rest]; [discriminate|].
  destruct (Qltb r0 (2 # 10)); [| inversion H; subst; exact Same].
  inv_bind H. destruct a as [[np|] rest'']; inversion H; subst; [| exact Same].
  eexists. split; [reflexivity|]. apply length_insert.
Qed.

Lemma forEachSlot_frame (n : Z) (slots : list nat) (s s' : State) (rs rs' : list Q) :
  forEachSlot n slots s rs = Ok (s', rs') ->
  exists obs', s' = set_obstacles obs' s /\ length obs' = length (obstacles s).
Proof.
  revert s rs. induction slots as [|i slots IH]; simpl; intros s rs H.
  - inversion H; subst. exists (obstacles s'). rewrite set_obstacles_same. auto.
  - inv_bind H. destruct a as [s1 rs1].
    apply moveObstacle_frame in Ha. destruct Ha as (o1 & -> & L1).
    apply IH in H. destruct H as (o2 & -> & L2).
    exists o2. split; [reflexivity|]. simpl in L2. lia.
Qed.

Lemma moveObstacles_frame (n : Z) (s s' : State) (rs rs' : list Q) :
  moveObstacles n s rs = Ok (s', rs') ->
  exists obs', s' = set_obstacles obs' s /\ length obs' = length (obstacles s).
Proof. apply forEachSlot_frame. Qed.

(** ** One tick, taken apart *)

Lemma update_inv (n : Z) (s s' : State) (rs rs' : list Q) :
  isPaused s = false ->
  update n s rs = Ok (s', rs') ->
  exists s1 hit,
    moveSnake n s = Ok s1 /\ checkCollision s1 = Ok hit /\
    if hit : bool then s' = endGame s1 /\ rs' = rs
    else exists eaten s2 rs2,
        checkFoodCollision s1 = Ok eaten /\
        (if eaten : bool then eatFood n s1 rs = Ok (s2, rs2)
         else s2 = s1 /\ rs2 = rs) /\
        (if score s2 >=? 200 then moveObstacles n s2 rs2 = Ok (s', rs')
         else s' = s2 /\ rs' = rs2).
Proof.
  intros Hp H. unfold update in H. rewrite Hp in H.
  apply obind_Ok in H. destruct H as (s1 & Hm & H).
  apply obind_Ok in H. destruct H as (hit & Hc & H).
  exists s1, hit. split; [assumption|]. split; [assumption|].
  destruct hit.
  - inversion H. auto.
  - apply obind_Ok in H. destruct H as (eaten & Hf & H).
    apply obind_Ok in H. destruct H as ([s2 rs2] & He & H).
    exists eaten, s2, rs2. split; [assumption|]. split.
    + destruct eaten; [assumption | inversion He; auto].
    + destruct (score s2 >=? 200); [assumption | inversion H; auto].
Qed.

Lemma moveSnake_inv (n : Z) (s s1 : State) :
  moveSnake n s = Ok s1 ->
  exists h body,
    snake s = h :: body /\
    s1 = set_snake (mkCell (wrap n (x h + x (direction s)))
                           (wrap n (y h + y (direction s)))
                    :: removelast (snake s)) s.
Proof.
  unfold moveSnake. destruct (snake s) as [|h body] eqn:E; [discriminate|].
  intros H. inversion H. exists h, body. split; reflexivity.
Qed.

Lemma length_removelast_cons (h : Cell) (l : list Cell) :
  length (removelast (h :: l)) = length l.
Proof.
  revert h. induction l as [|a l IH]; intros h; [reflexivity|].
  rewrite removelast_cons by discriminate.
  change (S (length (removelast (a :: l))) = S (length l)).
  f_equal. apply IH.
Qed.


Lemma handleKeyPress_frame (key : string) (s : State) :
  exists d, handleKeyPress key s = set_direction d s.
Proof.
  assert (Same : forall t, exists d, t = set_direction d t).
  { intros t. exists (direction t). destruct t. reflexivity. }
  assert (Twice : forall d t, exists d', set_direction d t = set_direction d' t)
    by eauto.
  assert (Again : forall d d' t,
             exists d'', set_direction d (set_direction d' t) = set_direction d'' t).
  { intros d d' t. exists d. reflexivity. }
  unfold handleKeyPress.
  repeat match goal with
         | |- context [if ?b then _ else _] => destruct b
         end; auto.
Qed.

Lemma resetGame_inv (n : Z) (s s' : State) (rs rs' : list Q) :
  resetGame n s rs = Ok (s', rs') ->
  exists c,
    s' = mkState [mkCell 10 10] (mkCell 0 0) c [] 0 (highScore s)
                 (Some 150) false 150 true /\
    c <> mkCell 10 10.
Proof.
  unfold resetGame. intros H.
  apply obind_Ok in H. destruct H as ([s7 rest] & Hsp & H).
  apply spawnFood_inv in Hsp. destruct Hsp as (c & -> & Hv).
  inversion H. subst. exists c. split; [reflexivity|].
  unfold foodValid in Hv. simpl in Hv.
  rewrite orb_false_r, andb_true_r in Hv.
  apply negb_true_iff, sameCell_false in Hv. congruence.
Qed.

(** ** Dropping the last segment *)

Lemma elem_of_removelast (c : Cell) (l : list Cell) :
  c ∈ removelast l -> c ∈ l.
Proof.
  induction l as [|a l IH]; [auto|].
  destruct l as [|b l]; [simpl; intros H; inversion H|].
  rewrite removelast_cons by discriminate.
  rewrite !(elem_of_cons _ c a). intros [->|H]; auto.
Qed.

Lemma NoDup_removelast (l : list Cell) : NoDup l -> NoDup (removelast l).
Proof.
  induction l as [|a l IH]; [auto|].
  destruct l as [|b l]; [intros _; constructor|].
  rewrite removelast_cons by discriminate.
  rewrite !(NoDup_cons a). intros [Ha Hl]. split; [| auto].
  intros Hin. apply Ha, elem_of_removelast, Hin.
Qed.

(** ** Distinct segments, one event at a time *)

(** One event: if the segments other than the last one are pairwise
    distinct before it and it does not end the game, they are after it; and
    after a tick that moves the snake without eating, all segments are. *)
Lemma fire_keeps_body_distinct (n : Z) (e : Event) (s s' : State)
        (rs rs' : list Q) :
  NoDup (removelast (snake s)) ->
  fire n e s rs = Ok (s', rs') ->
  (gameLoop s <> None -> gameLoop s' <> None) ->
  NoDup (removelast (snake s')) /\
  (forall s1, e = Tick -> gameLoop s <> None -> isPaused s = false ->
              moveSnake n s = Ok s1 -> checkFoodCollision s1 = Ok false ->
              NoDup (snake s')).
Proof.
  intros Hnd Hf Halive.
  destruct e; simpl in Hf.
  - inversion Hf. subst.
    destruct (handleKeyPress_frame key s) as (d & ->). simpl.
    split; [assumption | discriminate].
  - split; [| discriminate]. unfold startGame in Hf.
    destruct (gameLoop s).
    + apply resetGame_inv in Hf. destruct Hf as (c & -> & _). constructor.
    + inversion Hf. subst. exact Hnd.
  - split; [| discriminate]. inversion Hf. subst. unfold togglePause.
    destruct (gameLoop s); exact Hnd.
  - split; [| discriminate].
    apply resetGame_inv in Hf. destruct Hf as (c & -> & _). constructor.
  - destruct (gameLoop s) as [period|] eqn:Hg.
    2:{ inversion Hf. subst. split; [exact Hnd|]. intros s1 _ Hne. congruence. }
    destruct (isPaused s) eqn:Hp.
    { unfold update in Hf. rewrite Hp in Hf. inversion Hf. subst.
      split; [exact Hnd|]. intros; discriminate. }
    destruct (update_inv _ _ _ _ _ Hp Hf) as (s1 & hit & Hm & Hc & Hrest).
    destruct hit.
    { destruct Hrest as [-> _]. exfalso. apply Halive; [discriminate | reflexivity]. }
    destruct Hrest as (eaten & s2 & rs2 & Hfc & He & Ho).
    assert (Hs' : snake s' = snake s2).
    { destruct (score s2 >=? 200).
      - apply moveObstacles_frame in Ho. destruct Ho as (o' & -> & _). reflexivity.
      - destruct Ho as [-> _]. reflexivity. }
    assert (Hnd1 : NoDup (snake s1)).
    { destruct (moveSnake_inv _ _ _ Hm) as (h & body & Hs & ->).
      unfold checkCollision in Hc. simpl in Hc. inversion Hc as [Hc'].
      apply orb_false_iff in Hc'. destruct Hc' as [Hc' _].
      simpl. apply NoDup_cons. split; [| exact Hnd].
      rewrite <- headAt_true. rewrite Hc'. discriminate. }
    destruct eaten.
    + apply eatFood_inv in He. destruct He as (tail' & extra & _ & Hsn & _).
      rewrite Hs', Hsn. rewrite removelast_last.
      split; [exact Hnd1|].
      intros s1' _ _ _ Hm' Hfc'. rewrite Hm in Hm'. inversion Hm'. subst.
      congruence.
    + destruct He as [-> _]. rewrite Hs'.
      split; [apply NoDup_removelast; exact Hnd1|].
      intros; exact Hnd1.
Qed.

(** ** The spawners *)

Lemma rejectionLoop_skip (n : Z) (valid : Cell -> bool) (pre tl : list Q) :
  Nat.Even (length pre) ->
  (exists c pre', rejectionLoop n valid (pre ++ tl) = Ok (c, pre' ++ tl) /\
                  Nat.Even (length pre') /\ valid c = true) \/
  rejectionLoop n valid (pre ++ tl) = rejectionLoop n valid tl.
Proof.
  induction pre as [| r | r1 r2 pre IH] using pairs_ind; intros Hev.
  - right. reflexivity.
  - exfalso. destruct Hev as [k Hk]. simpl in Hk. lia.
  - assert (Hev' : Nat.Even (length pre)).
    { destruct Hev as [k Hk]. exists (k - 1)%nat. simpl in Hk. lia. }
    cbn [app rejectionLoop].
    destruct (valid (drawnCell n r1 r2)) eqn:E.
    + left. eexists _, pre. repeat split; [exact Hev' | exact E].
    + apply IH. exact Hev'.
Qed.

(** The loop stops as soon as the draws hold an acceptable cell. *)
Lemma rejectionLoop_returns (n : Z) (valid : Cell -> bool)
      (pre : list Q) (r1 r2 : Q) (post : list Q) :
  Nat.Even (length pre) ->
  valid (drawnCell n r1 r2) = true ->
  exists c rest, rejectionLoop n valid (pre ++ r1 :: r2 :: post) = Ok (c, rest).
Proof.
  intros Hev Hv.
  destruct (rejectionLoop_skip n valid pre (r1 :: r2 :: post) Hev)
    as [(c & pre' & -> & _) | ->]; [eauto|].
  cbn [rejectionLoop]. rewrite Hv. eauto.
Qed.

(** C7: whenever [spawnFood] returns, the food it has placed is on no snake
    segment and no obstacle; whenever [spawnObstacle] returns, the obstacle
    it has appended is on no snake segment, not on the food and on no
    obstacle that was there; nothing else changes.  Each of them does return
    once the draws hold a cell it accepts. *)
Theorem spawner_exclusive (n : Z) (s : State) (rs : list Q) :
  (forall s' rs',
      spawnFood n s rs = Ok (s', rs') ->
      s' = set_food (food s') s /\
      (food s' ∉ snake s) /\ (food s' ∉ obstacles s)) /\
  (forall s' rs',
      spawnObstacle n s rs = Ok (s', rs') ->
      exists c, s' = set_obstacles (obstacles s ++ [c]) s /\
                (c ∉ snake s) /\ c <> food s /\ (c ∉ obstacles s)) /\
  (forall pre r1 r2 post,
      rs = pre ++ r1 :: r2 :: post -> Nat.Even (length pre) ->
      (foodValid s (drawnCell n r1 r2) = true ->
       exists s' rs', spawnFood n s rs = Ok (s', rs')) /\
      (obstacleValid s (drawnCell n r1 r2) = true ->
       exists s' rs', spawnObstacle n s rs = Ok (s', rs'))).
Proof.
  split; [| split].
  - intros s' rs' H. apply spawnFood_inv in H. destruct H as (c & -> & Hv).
    unfold foodValid in Hv. apply andb_true_iff in Hv. destruct Hv as [H1 H2].
    apply negb_true_iff, someAt_false in H1.
    apply negb_true_iff, someAt_false in H2.
    simpl. auto.
  - intros s' rs' H. apply spawnObstacle_inv in H. destruct H as (c & -> & Hv).
    exists c. split; [reflexivity|].
    unfold obstacleValid in Hv.
    apply andb_true_iff in Hv. destruct Hv as [Hv H3].
    apply andb_true_iff in Hv. destruct Hv as [H1 H2].
    apply negb_true_iff, someAt_false in H1.
    apply negb_true_iff, sameCell_false in H2.
    apply negb_true_iff, someAt_false in H3.
    auto.
  - intros pre r1 r2 post -> Hev. split; intros Hv.
    + destruct (rejectionLoop_returns n _ pre r1 r2 post Hev Hv) as (c & rest & E).
      unfold spawnFood. rewrite E. simpl. eauto.
    + destruct (rejectionLoop_returns n _ pre r1 r2 post Hev Hv) as (c & rest & E).
      unfold spawnObstacle. rewrite E. simpl. eauto.
Qed.

(** ** What holds in every state of a game *)

Lemma nextSpeed_floor (g : Z) : minSpeed <= g -> minSpeed <= nextSpeed g.
Proof.
  unfold nextSpeed, minSpeed, speedIncrement. intros H.
  destruct (Z.gtb_spec g 50); lia.
Qed.

Lemma nextSpeed_max (g : Z) :
  minSpeed <= g -> nextSpeed g = Z.max 50 (g - 5).
Proof.
  unfold nextSpeed, minSpeed, speedIncrement. intros H.
  destruct (Z.gtb_spec g 50); lia.
Qed.

Lemma fire_sane (n : Z) (e : Event) (s s' : State) (rs rs' : list Q) :
  sane s -> fire n e s rs = Ok (s', rs') -> sane s'.
Proof.
  intros (Hg & Hs & Hsc) Hf. unfold sane.
  assert (Hreset : forall t t' ds ds', resetGame n t ds = Ok (t', ds') -> sane t').
  { intros t t' ds ds' H. apply resetGame_inv in H. destruct H as (c & -> & _).
    unfold sane, minSpeed. simpl. repeat split; try lia; try discriminate. }
  destruct e; simpl in Hf.
  - inversion Hf. subst. destruct (handleKeyPress_frame key s) as (d & ->).
    simpl. auto.
  - unfold startGame in Hf. destruct (gameLoop s).
    + eapply Hreset. exact Hf.
    + inversion Hf. subst. simpl. unfold minSpeed. repeat split; auto; lia.
  - inversion Hf. subst. unfold togglePause. destruct (gameLoop s); simpl; auto.
  - eapply Hreset. exact Hf.
  - destruct (gameLoop s); [| inversion Hf; subst; auto].
    destruct (isPaused s) eqn:Hp.
    { unfold update in Hf. rewrite Hp in Hf. inversion Hf. subst. auto. }
    destruct (update_inv _ _ _ _ _ Hp Hf) as (s1 & hit & Hm & Hc & Hrest).
    destruct (moveSnake_inv _ _ _ Hm) as (h & body & Hsn & ->).
    destruct hit.
    { destruct Hrest as [-> _]. simpl. repeat split; auto; try discriminate. }
    destruct Hrest as (eaten & s2 & rs2 & Hfc & He & Ho).
    assert (H2 : sane s2).
    { destruct eaten.
      - apply eatFood_inv in He.
        destruct He as (tl & extra & _ & E1 & E2 & E3 & _).
        unfold sane. rewrite E1, E2, E3. simpl. repeat split.
        + apply nextSpeed_floor. exact Hg.
        + discriminate.
        + lia.
      - destruct He as [-> _]. unfold sane. simpl. repeat split; auto; try discriminate. }
    destruct (score s2 >=? 200).
    + apply moveObstacles_frame in Ho. destruct Ho as (o' & -> & _). exact H2.
    + destruct Ho as [-> _]. exact H2.
Qed.

Lemma run_sane (n : Z) (es : list Event) (s s' : State) (rs rs' : list Q) :
  sane s -> run n es s rs = Ok (s', rs') -> sane s'.
Proof.
  revert s rs. induction es as [|e es IH]; simpl; intros s rs Hs H.
  - inversion H. subst. exact Hs.
  - apply obind_Ok in H. destruct H as ([s1 rs1] & Hf & H).
    eapply IH; [| exact H]. eapply fire_sane; eauto.
Qed.

Lemma reachable_sane (n : Z) (s : State) : reachable n s -> sane s.
Proof.
  intros (saved & hidden & es & rs & rs' & _ & H).
  eapply run_sane; [| exact H].
  unfold sane, minSpeed. simpl. repeat split; try lia; try discriminate.
Qed.

Lemma eats_sane (n : Z) (s : State) : eats n s -> sane s.
Proof.
  intros (s0 & Hr & _ & _ & Hm & _).
  apply reachable_sane in Hr. destruct Hr as (Hg & Hs & Hsc).
  destruct (moveSnake_inv _ _ _ Hm) as (h & body & _ & ->).
  unfold sane. simpl. repeat split; auto; try discriminate.
Qed.

(** ** Difficulty *)

Lemma foodValid_free (s : State) (c : Cell) :
  foodValid s c = true <-> (c ∉ snake s) /\ (c ∉ obstacles s).
Proof.
  unfold foodValid. rewrite andb_true_iff, !negb_true_iff, !someAt_false.
  reflexivity.
Qed.

Lemma obstacleValid_free (s : State) (c : Cell) :
  obstacleValid s c = true <-> (c ∉ snake s) /\ food s <> c /\ (c ∉ obstacles s).
Proof.
  unfold obstacleValid.
  rewrite !andb_true_iff, !negb_true_iff, !someAt_false, sameCell_false.
  tauto.
Qed.

(** [eatFood] returns when the draws, read in pairs, hold two different free
    cells: the obstacle spawner takes at most one of them. *)
Lemma eatFood_returns (n : Z) (s : State)
      (pre : list Q) (a1 a2 : Q) (mid : list Q) (b1 b2 : Q) (post : list Q) :
  snake s <> [] ->
  Nat.Even (length pre) -> Nat.Even (length mid) ->
  drawnCell n a1 a2 <> drawnCell n b1 b2 ->
  obstacleValid s (drawnCell n a1 a2) = true ->
  obstacleValid s (drawnCell n b1 b2) = true ->
  exists s' rs',
    eatFood n s (pre ++ a1 :: a2 :: mid ++ b1 :: b2 :: post) = Ok (s', rs').
Proof.
  intros Hne Hpre Hmid Hab Ha Hb.
  set (a := drawnCell n a1 a2) in *. set (b := drawnCell n b1 b2) in *.
  apply obstacleValid_free in Ha, Hb.
  destruct Ha as (Ha1 & Ha2 & Ha3). destruct Hb as (Hb1 & Hb2 & Hb3).
  unfold eatFood.
  set (s1 := set_score (score s + 10) s).
  set (s2 := if score s1 >? highScore s1 then set_highScore (score s1) s1 else s1).
  assert (E2 : snake s2 = snake s /\ obstacles s2 = obstacles s /\ food s2 = food s).
  { subst s2. destruct (score s1 >? highScore s1); simpl; auto. }
  destruct E2 as (Esn & Eob & Efo). clearbody s2. clear s1.
  destruct (last (snake s2)) as [tl|] eqn:Hl.
  2:{ apply last_None in Hl. congruence. }
  assert (Htl : tl ∈ snake s).
  { rewrite <- Esn. apply last_Some in Hl. destruct Hl as (l' & ->).
    apply elem_of_app. right. apply list_elem_of_singleton. reflexivity. }
  rewrite cell_eta.
  set (s3 := set_snake (snake s2 ++ [tl]) s2).
  assert (Hfree : forall c extra s4 g,
             c ∉ snake s -> c ∉ obstacles s -> c ∉ extra ->
             snake s4 = snake s3 -> obstacles s4 = obstacles s ++ extra ->
             foodValid (if g : bool
                        then set_gameLoop (Some (Z.max minSpeed (gameSpeed s4 - speedIncrement)))
                               (set_gameSpeed (Z.max minSpeed (gameSpeed s4 - speedIncrement)) s4)
                        else s4) c = true).
  { intros c extra s4 g Hc1 Hc2 Hc3 E4 E5. apply foodValid_free.
    assert (c ∉ snake s3).
    { subst s3. simpl. rewrite Esn. intros Hin. apply elem_of_app in Hin.
      destruct Hin as [Hin|Hin]; [auto|].
      apply list_elem_of_singleton in Hin. subst. auto. }
    assert (c ∉ obstacles s ++ extra).
    { intros Hin. apply elem_of_app in Hin. tauto. }
    destruct g; simpl; rewrite E4, E5; auto. }
  destruct ((score s3 >=? 50) && (Z.rem (score s3) 50 =? 0)).
  - (* an obstacle is due *)
    unfold spawnObstacle.
    assert (Hva : obstacleValid s3 a = true).
    { apply obstacleValid_free. subst s3. simpl. rewrite Esn, Eob, Efo.
      repeat split; auto. intros Hin. apply elem_of_app in Hin.
      destruct Hin as [Hin|Hin]; [auto|].
      apply list_elem_of_singleton in Hin. subst. auto. }
    destruct (rejectionLoop_skip n (obstacleValid s3) pre
                (a1 :: a2 :: mid ++ b1 :: b2 :: post) Hpre)
      as [(c & pre' & -> & Hpre' & Hvc) | ->].
    + (* accepted before the first free cell: both are still to come *)
      cbn [obind]. apply obstacleValid_free in Hvc.
      destruct (decide (c = a)) as [->|Hca].
      * unfold spawnFood.
        replace (pre' ++ a1 :: a2 :: mid ++ b1 :: b2 :: post)
          with ((pre' ++ a1 :: a2 :: mid) ++ b1 :: b2 :: post)
          by (rewrite <- app_assoc; reflexivity).
        edestruct (rejectionLoop_returns n) as (cf & rest & ->);
          [| | simpl; eauto].
        -- rewrite length_app. cbn [length].
           destruct Hpre' as [k Hk], Hmid as [m Hm]. exists (k + m + 1)%nat. lia.
        -- fold b. apply (Hfree b [a]); auto.
           ++ intros Hin. apply list_elem_of_singleton in Hin. congruence.
           ++ simpl. rewrite Eob. reflexivity.
      * unfold spawnFood.
        edestruct (rejectionLoop_returns n) as (cf & rest & ->);
          [exact Hpre' | | simpl; eauto].
        fold a. apply (Hfree a [c]); auto.
        -- intros Hin. apply list_elem_of_singleton in Hin. congruence.
        -- simpl. rewrite Eob. reflexivity.
    + (* the first free cell is accepted *)
      cbn [rejectionLoop]. fold a. rewrite Hva.
      cbn [obind]. unfold spawnFood.
      edestruct (rejectionLoop_returns n) as (cf & rest & ->);
        [exact Hmid | | simpl; eauto].
      fold b. apply (Hfree b [a]); auto.
      * intros Hin. apply list_elem_of_singleton in Hin. congruence.
      * simpl. rewrite Eob. reflexivity.
  - (* no obstacle *)
    cbn [obind]. unfold spawnFood.
    edestruct (rejectionLoop_returns n) as (cf & rest & ->);
      [exact Hpre | | simpl; eauto].
    fold a. apply (Hfree a []); auto.
    + apply not_elem_of_nil.
    + simpl. rewrite Eob, app_nil_r. reflexivity.
Qed.

(** C6: every time a tick of a game eats, [eatFood] raises the score by 10,
    sets the interval to max(50, interval - 5), which is at least 50, and
    appends exactly one obstacle when the new score is at least 50 and a
    multiple of 50, and none otherwise.  It returns whenever the draws hold
    two different free cells. *)
Theorem eatFood_difficulty (n : Z) (s : State) (rs : list Q) :
  eats n s ->
  (forall s' rs',
      eatFood n s rs = Ok (s', rs') ->
      score s' = score s + 10 /\
      gameSpeed s' = Z.max 50 (gameSpeed s - 5) /\
      50 <= gameSpeed s' /\
      exists extra,
        obstacles s' = obstacles s ++ extra /\
        length extra =
          if (score s' >=? 50) && (score s' mod 50 =? 0) then 1%nat else 0%nat) /\
  (forall pre a1 a2 mid b1 b2 post,
      rs = pre ++ a1 :: a2 :: mid ++ b1 :: b2 :: post ->
      Nat.Even (length pre) -> Nat.Even (length mid) ->
      drawnCell n a1 a2 <> drawnCell n b1 b2 ->
      obstacleValid s (drawnCell n a1 a2) = true ->
      obstacleValid s (drawnCell n b1 b2) = true ->
      exists s' rs', eatFood n s rs = Ok (s', rs')).
Proof.
  intros Hr. apply eats_sane in Hr. destruct Hr as (Hg & Hne & Hsc).
  split.
  - intros s' rs' H. apply eatFood_inv in H.
    destruct H as (tl & extra & _ & _ & E1 & E2 & E3 & Hex & _).
    split; [exact E1|].
    split; [rewrite E2; apply nextSpeed_max; exact Hg|].
    split; [rewrite E2; apply (nextSpeed_floor _ Hg)|].
    exists extra. split; [exact E3|].
    rewrite E1. unfold obstacleDue in Hex.
    rewrite Z.rem_mod_nonneg in Hex by lia.
    destruct ((score s + 10 >=? 50) && ((score s + 10) mod 50 =? 0)).
    + destruct Hex as (c & -> & _). reflexivity.
    + rewrite Hex. reflexivity.
  - intros pre a1 a2 mid b1 b2 post -> Hpre Hmid Hab Ha Hb.
    apply eatFood_returns; assumption.
Qed.

(** ** The obstacle mover *)

Lemma someOther_true (i : nat) (np : Cell) (j : nat) (a : list Cell) :
  someOther i np j a = true <->
  exists k, (j + k)%nat <> i /\ a !! k = Some np.
Proof.
  revert j. induction a as [|other a IH]; intros j; simpl.
  - split; [discriminate | intros (k & _ & H); destruct k; discriminate].
  - rewrite orb_true_iff, andb_true_iff, negb_true_iff, Nat.eqb_neq,
      sameCell_true, IH.
    split.
    + intros [[Hj ->] | (k & Hk & Ha)].
      * exists 0%nat. split; [lia | reflexivity].
      * exists (S k). split; [lia | exact Ha].
    + intros (k & Hk & Ha). destruct k as [|k].
      * left. simpl in Ha. inversion Ha. split; [lia | reflexivity].
      * right. exists k. split; [lia | exact Ha].
Qed.

Lemma moveValid_free (i : nat) (np : Cell) (s : State) :
  moveValid i np s = true <->
  (np ∉ snake s) /\ food s <> np /\
  (forall k, k <> i -> obstacles s !! k <> Some np).
Proof.
  unfold moveValid.
  rewrite !andb_true_iff, !negb_true_iff, someAt_false, sameCell_false.
  assert (E : someOther i np 0 (obstacles s) = false <->
              forall k, k <> i -> obstacles s !! k <> Some np).
  { rewrite <- not_true_iff_false, someOther_true. split.
    - intros H k Hk Hl. apply H. exists k. auto.
    - intros H (k & Hk & Hl). apply (H k); auto. }
  rewrite E. tauto.
Qed.

Section Mover.

Variable n : Z.
Hypothesis n_pos : 0 < n.

Lemma wrap_id (v : Z) : 0 <= v < n -> wrap n v = v.
Proof.
  intros Hv. unfold wrap.
  destruct (Z.ltb_spec v 0); [lia|]. destruct (Z.geb_spec v n); lia.
Qed.

Lemma stepCandidate_inGrid (d : Z) (o : Cell) : inGrid n (stepCandidate n d o).
Proof using n_pos.
  unfold inGrid, stepCandidate. simpl. split; apply wrap_inGrid; exact n_pos.
Qed.

(** A candidate is the obstacle's own cell or one of its four wrap-around
    neighbours. *)
Lemma stepCandidate_cases (d : Z) (o : Cell) :
  inGrid n o ->
  stepCandidate n d o = o \/
  exists dir, cardinal dir /\ wrapStep n dir o (stepCandidate n d o).
Proof using n_pos.
  intros [Hx Hy]. unfold stepCandidate, cardinal, wrapStep.
  destruct (Z.eqb_spec d 0); [|destruct (Z.eqb_spec d 1);
    [|destruct (Z.eqb_spec d 2); [|destruct (Z.eqb_spec d 3)]]]; simpl.
  - right. exists Up. split; [auto|]. simpl.
    rewrite wrap_id by assumption.
    replace (y o - 1) with (y o + -1) by lia.
    rewrite wrap_mod by (assumption || lia).
    split; [symmetry; apply (mod_reduce n n_pos _ _ 1); lia | reflexivity].
  - right. exists Right. split; [auto|]. simpl.
    rewrite (wrap_id (y o)) by assumption.
    rewrite wrap_mod by (assumption || lia).
    split; [reflexivity | symmetry; apply (mod_reduce n n_pos _ _ 1); lia].
  - right. exists Down. split; [auto|]. simpl.
    rewrite wrap_id by assumption.
    rewrite wrap_mod by (assumption || lia).
    split; [symmetry; apply (mod_reduce n n_pos _ _ 1); lia | reflexivity].
  - right. exists Left. split; [auto 6|]. simpl.
    rewrite (wrap_id (y o)) by assumption.
    replace (x o - 1) with (x o + -1) by lia.
    rewrite wrap_mod by (assumption || lia).
    split; [reflexivity | symmetry; apply (mod_reduce n n_pos _ _ 1); lia].
  - left. rewrite !wrap_id by assumption. apply cell_eta.
Qed.

Lemma relocate_inv (k i : nat) (o : Cell) (s : State) (rs rest : list Q)
      (found : option Cell) :
  relocate n k i o s rs = Ok (found, rest) ->
  match found with
  | Some np => moveValid i np s = true /\
               exists r, np = stepCandidate n (randomIndex r 4) o
  | None => True
  end.
Proof.
  revert rs. induction k as [|k IH]; intros rs; simpl.
  - intros H. inversion H. exact I.
  - destruct rs as [|r rs]; [discriminate|].
    destruct (moveValid i _ s) eqn:E.
    + intros H. inversion H. subst. split; [exact E | eauto].
    + apply IH.
Qed.

(** Ten rejected candidates: the loop ends without a position. *)
Lemma relocate_rejects (i : nat) (o : Cell) (s : State) (ds rest : list Q) :
  Forall (fun r => moveValid i (stepCandidate n (randomIndex r 4) o) s = false) ds ->
  relocate n (length ds) i o s (ds ++ rest) = Ok (None, rest).
Proof.
  induction 1 as [|r ds Hr _ IH]; simpl; [reflexivity|].
  rewrite Hr. exact IH.
Qed.

(** The loop never fails: with a draw for each attempt it returns. *)
Lemma relocate_total (k i : nat) (o : Cell) (s : State) (rs : list Q) :
  (k <= length rs)%nat ->
  exists found rest,
    relocate n k i o s rs = Ok (found, rest) /\
    (length rs <= length rest + k)%nat.
Proof.
  revert rs. induction k as [|k IH]; intros rs Hk; simpl.
  - exists None, rs. split; [reflexivity | lia].
  - destruct rs as [|r rs]; [simpl in Hk; lia|].
    destruct (moveValid i _ s).
    + eexists _, rs. split; [reflexivity | simpl; lia].
    + simpl in Hk. destruct (IH rs) as (f & rest & E & L); [lia|].
      exists f, rest. split; [exact E | simpl; lia].
Qed.

Lemma moveObstacle_inv (i : nat) (s s' : State) (rs rs' : list Q) :
  moveObstacle n i s rs = Ok (s', rs') ->
  s' = s \/
  exists o r,
    obstacles s !! i = Some o /\
    moveValid i (stepCandidate n (randomIndex r 4) o) s = true /\
    s' = set_obstacles (<[i := stepCandidate n (randomIndex r 4) o]> (obstacles s)) s.
Proof.
  unfold moveObstacle. intros H.
  destruct (obstacles s !! i) as [o|] eqn:Ho; [| inversion H; auto].
  destruct rs as [|r0 rest]; [discriminate|].
  destruct (Qltb r0 (2 # 10)); [| inversion H; auto].
  apply obind_Ok in H. destruct H as ([found rest'] & Hrel & H).
  apply relocate_inv in Hrel.
  destruct found as [np|]; inversion H; subst; [| auto].
  destruct Hrel as (Hv & r & ->). right. exists o, r. auto.
Qed.

Lemma moveObstacle_total (i : nat) (s : State) (rs : list Q) :
  (11 <= length rs)%nat ->
  exists s' rs', moveObstacle n i s rs = Ok (s', rs') /\
                 (length rs <= length rs' + 11)%nat.
Proof.
  intros Hl. unfold moveObstacle.
  destruct (obstacles s !! i) as [o|].
  2:{ exists s, rs. split; [reflexivity | lia]. }
  destruct rs as [|r0 rest]; [simpl in Hl; lia|]. simpl in Hl.
  destruct (Qltb r0 (2 # 10)).
  2:{ exists s, rest. split; [reflexivity | simpl; lia]. }
  destruct (relocate_total maxAttempts i o s rest) as (f & rest' & -> & L).
  { unfold maxAttempts. lia. }
  unfold maxAttempts in L. cbn [obind].
  destruct f; eexists _, rest'; (split; [reflexivity | simpl; lia]).
Qed.

Lemma forEachSlot_total (slots : list nat) (s : State) (rs : list Q) :
  (11 * length slots <= length rs)%nat ->
  exists s' rs', forEachSlot n slots s rs = Ok (s', rs').
Proof.
  revert s rs. induction slots as [|i slots IH]; intros s rs Hl; simpl.
  - eauto.
  - simpl in Hl.
    destruct (moveObstacle_total i s rs) as (s1 & rs1 & -> & L); [lia|].
    cbn [obind]. apply IH. lia.
Qed.

(** What one pass over the slots [slots] does to each obstacle. *)
Lemma forEachSlot_spec (slots : list nat) (s s' : State) (rs rs' : list Q) :
  NoDup slots ->
  Forall (inGrid n) (obstacles s) ->
  forEachSlot n slots s rs = Ok (s', rs') ->
  (forall i, i ∉ slots -> obstacles s' !! i = obstacles s !! i) /\
  (forall i o o',
      i ∈ slots -> obstacles s !! i = Some o -> obstacles s' !! i = Some o' ->
      o' = o \/
      ((exists dir, cardinal dir /\ wrapStep n dir o o') /\
       (o' ∉ snake s) /\ o' <> food s /\
       (forall j, j <> i -> obstacles s' !! j <> Some o'))).
Proof using n_pos.
  intros Hnd. revert s rs.
  induction slots as [|i slots IH]; intros s rs Hgrid H; simpl in H.
  - inversion H. subst. split; [reflexivity|].
    intros i o o' Hin. inversion Hin.
  - apply obind_Ok in H. destruct H as ([s1 rs1] & Hstep & H).
    apply NoDup_cons in Hnd. destruct Hnd as [Hi Hnd].
    assert (Hsame : snake s1 = snake s /\ food s1 = food s).
    { apply moveObstacle_frame in Hstep. destruct Hstep as (o1 & -> & _). auto. }
    destruct Hsame as [Hsn Hfo].
    assert (Hgrid1 : Forall (inGrid n) (obstacles s1)).
    { apply moveObstacle_inv in Hstep.
      destruct Hstep as [-> | (o & r & Ho & Hv & ->)]; [exact Hgrid|].
      simpl. apply Forall_insert; [exact Hgrid | apply stepCandidate_inGrid]. }
    destruct (IH Hnd s1 rs1 Hgrid1 H) as [IHout IHin].
    assert (Hothers : forall j, j <> i -> obstacles s1 !! j = obstacles s !! j).
    { intros j Hj. apply moveObstacle_inv in Hstep.
      destruct Hstep as [-> | (o & r & Ho & Hv & ->)]; [reflexivity|].
      simpl. apply list_lookup_insert_ne. congruence. }
    split.
    + intros j Hj. apply not_elem_of_cons in Hj. destruct Hj as [Hji Hjs].
      rewrite (IHout j Hjs). apply Hothers. exact Hji.
    + intros j o o' Hj Ho Ho'. apply elem_of_cons in Hj.
      destruct Hj as [-> | Hj].
      * (* the slot visited first *)
        rewrite (IHout i Hi) in Ho'.
        apply moveObstacle_inv in Hstep.
        destruct Hstep as [-> | (o0 & r & Ho0 & Hv & ->)].
        { left. congruence. }
        rewrite Ho in Ho0. inversion Ho0. subst o0.
        simpl in Ho'. rewrite list_lookup_insert_eq in Ho'
          by (eapply lookup_lt_Some; exact Ho).
        inversion Ho'. subst o'. clear Ho'.
        set (np := stepCandidate n (randomIndex r 4) o) in *.
        assert (Hin : inGrid n o).
        { eapply Forall_lookup_1; [exact Hgrid | exact Ho]. }
        destruct (stepCandidate_cases (randomIndex r 4) o Hin) as [E | Hnb];
          [left; exact E|].
        right. apply moveValid_free in Hv. destruct Hv as (V1 & V2 & V3).
        split; [exact Hnb|]. split; [exact V1|]. split; [congruence|].
        intros j Hj Hl.
        assert (Hl1 : obstacles s !! j <> Some np) by (apply V3; exact Hj).
        destruct (decide (j ∈ slots)) as [Hjs | Hjs].
        -- destruct (obstacles s !! j) as [oj|] eqn:Hoj.
           2:{ apply lookup_ge_None in Hoj.
               apply lookup_lt_Some in Hl.
               apply forEachSlot_frame in H. destruct H as (o2 & -> & L2).
               simpl in Hl, L2. rewrite length_insert in L2. lia. }
           assert (Hoj1 : obstacles (set_obstacles (<[i:=np]> (obstacles s)) s) !! j
                          = Some oj).
           { simpl. rewrite list_lookup_insert_ne by congruence. exact Hoj. }
           destruct (IHin j oj np Hjs Hoj1 Hl) as [E | (_ & _ & _ & Hfin)].
           ++ congruence.
           ++ apply (Hfin i); [congruence|].
              rewrite (IHout i Hi). simpl.
              apply list_lookup_insert_eq. eapply lookup_lt_Some. exact Ho.
        -- rewrite (IHout j Hjs) in Hl. simpl in Hl.
           rewrite list_lookup_insert_ne in Hl by congruence. contradiction.
      * (* a slot visited later *)
        assert (Hji : j <> i) by (intros ->; contradiction).
        rewrite <- (Hothers j Hji) in Ho.
        destruct (IHin j o o' Hj Ho Ho') as [E | (Hnb & V1 & V2 & Hfin)];
          [left; exact E|].
        right. rewrite <- Hsn, <- Hfo. auto.
Qed.

(** C8: the obstacle mover (which [update] runs when the score is 200 or
    more) touches nothing but the obstacle cells, and leaves each obstacle
    either on its cell or on a wrap-around neighbour of it in one of the
    four directions that is on no snake segment, not on the food and on
    no other obstacle.  An obstacle whose ten candidates are all rejected
    stays where it is and the call goes on.  The mover never fails: given
    eleven draws per obstacle it returns. *)
Theorem moveObstacles_stay_or_step (s : State) (rs : list Q) :
  Forall (inGrid n) (obstacles s) ->
  (forall s' rs',
      moveObstacles n s rs = Ok (s', rs') ->
      (exists obs', s' = set_obstacles obs' s /\
                    length obs' = length (obstacles s)) /\
      (forall i o o',
          obstacles s !! i = Some o -> obstacles s' !! i = Some o' ->
          o' = o \/
          ((exists dir, cardinal dir /\ wrapStep n dir o o') /\
           (o' ∉ snake s') /\ o' <> food s' /\
           (forall j, j <> i -> obstacles s' !! j <> Some o')))) /\
  (forall i o r0 ds rest,
      obstacles s !! i = Some o ->
      Qltb r0 (2 # 10) = true ->
      length ds = maxAttempts ->
      Forall (fun r => moveValid i (stepCandidate n (randomIndex r 4) o) s = false) ds ->
      moveObstacle n i s (r0 :: ds ++ rest) = Ok (s, rest)) /\
  ((11 * length (obstacles s) <= length rs)%nat ->
   exists s' rs', moveObstacles n s rs = Ok (s', rs')).
Proof using n_pos.
  intros Hgrid. split; [| split].
  - intros s' rs' H. split; [apply (moveObstacles_frame _ _ _ _ _ H)|].
    intros i o o' Ho Ho'.
    destruct (moveObstacles_frame _ _ _ _ _ H) as (obs' & E & _).
    assert (Hsn : snake s' = snake s) by (rewrite E; reflexivity).
    assert (Hfo : food s' = food s) by (rewrite E; reflexivity).
    rewrite Hsn, Hfo.
    unfold moveObstacles in H.
    apply forEachSlot_spec in H; [| apply NoDup_seq | exact Hgrid].
    destruct H as [_ Hin]. apply (Hin i o o'); [| exact Ho | exact Ho'].
    apply elem_of_seq. apply lookup_lt_Some in Ho. lia.
  - intros i o r0 ds rest Ho Hr0 Hlen Hrej.
    unfold moveObstacle. rewrite Ho, Hr0, <- Hlen.
    rewrite relocate_rejects by exact Hrej. reflexivity.
  - intros Hl. unfold moveObstacles. apply forEachSlot_total.
    rewrite length_seq. exact Hl.
Qed.

End Mover.

(** ** Obstacles stay on the grid *)

Section OnGrid.

Variable n : Z.
Hypothesis n_pos : 0 < n.

Lemma randomIndex_range (r : Q) (m : Z) :
  unitDraw r -> 0 < m -> 0 <= randomIndex r m < m.
Proof.
  intros [H0 H1] Hm. unfold randomIndex.
  assert (Hq : (0 < inject_Z m)%Q).
  { change (inject_Z 0 < inject_Z m)%Q. rewrite <- Zlt_Qlt. exact Hm. }
  split.
  - rewrite <- (Qfloor_Z 0). apply Qfloor_resp_le.
    apply Qmult_le_0_compat; [exact H0 | apply Qlt_le_weak, Hq].
  - rewrite Zlt_Qlt. eapply Qle_lt_trans; [apply Qfloor_le|].
    rewrite <- (Qmult_1_l (inject_Z m)) at 2.
    apply Qmult_lt_compat_r; assumption.
Qed.

Lemma rejectionLoop_tidy (valid : Cell -> bool) (rs rest : list Q) (c : Cell) :
  Forall unitDraw rs ->
  rejectionLoop n valid rs = Ok (c, rest) ->
  inGrid n c /\ Forall unitDraw rest.
Proof using n_pos.
  induction rs as [| r | r1 r2 rs IH] using pairs_ind;
    cbn [rejectionLoop]; try discriminate.
  intros Hu. apply Forall_cons in Hu. destruct Hu as [U1 Hu].
  apply Forall_cons in Hu. destruct Hu as [U2 Hu].
  destruct (valid (drawnCell n r1 r2)).
  - intros H. inversion H. subst. split; [| exact Hu].
    split; simpl; apply randomIndex_range; assumption.
  - apply IH. exact Hu.
Qed.

Lemma spawnFood_tidy (s s' : State) (rs rs' : list Q) :
  tidy n s rs -> spawnFood n s rs = Ok (s', rs') -> tidy n s' rs'.
Proof using n_pos.
  intros [Hg Hu] H. unfold spawnFood in H.
  apply obind_Ok in H. destruct H as ([c rest] & Hl & H).
  inversion H. subst. apply (rejectionLoop_tidy _ _ _ _ Hu) in Hl.
  split; [exact Hg | apply Hl].
Qed.

Lemma spawnObstacle_tidy (s s' : State) (rs rs' : list Q) :
  tidy n s rs -> spawnObstacle n s rs = Ok (s', rs') -> tidy n s' rs'.
Proof using n_pos.
  intros [Hg Hu] H. unfold spawnObstacle in H.
  apply obind_Ok in H. destruct H as ([c rest] & Hl & H).
  inversion H. subst. apply (rejectionLoop_tidy _ _ _ _ Hu) in Hl.
  destruct Hl as [Hc Hr]. split; [| exact Hr].
  simpl. apply Forall_app. split; [exact Hg |].
  constructor; [exact Hc | constructor].
Qed.

Lemma tidy_obstacles (s s' : State) (rs : list Q) :
  obstacles s' = obstacles s -> tidy n s rs -> tidy n s' rs.
Proof. unfold tidy. intros ->. auto. Qed.

Lemma eatFood_tidy (s s' : State) (rs rs' : list Q) :
  tidy n s rs -> eatFood n s rs = Ok (s', rs') -> tidy n s' rs'.
Proof using n_pos.
  intros Ht H. unfold eatFood in H.
  set (s1 := set_score (score s + 10) s) in *.
  set (s2 := if score s1 >? highScore s1 then set_highScore (score s1) s1 else s1) in *.
  assert (E2 : obstacles s2 = obstacles s).
  { subst s2. destruct (score s1 >? highScore s1); reflexivity. }
  clearbody s2. clear s1.
  destruct (last (snake s2)) as [tl|]; [| discriminate].
  apply obind_Ok in H. destruct H as ([s4 rs4] & Ho & H).
  assert (T4 : tidy n s4 rs4).
  { destruct (_ && _) in Ho.
    - eapply spawnObstacle_tidy; [| exact Ho].
      apply (tidy_obstacles s); [exact E2 | exact Ht].
    - inversion Ho. subst. apply (tidy_obstacles s); [exact E2 | exact Ht]. }
  eapply spawnFood_tidy; [| exact H].
  apply (tidy_obstacles s4); [| exact T4].
  destruct (gameSpeed s4 >? minSpeed); reflexivity.
Qed.

Lemma relocate_tidy (k i : nat) (o : Cell) (s : State) (rs rest : list Q)
      (found : option Cell) :
  Forall unitDraw rs ->
  relocate n k i o s rs = Ok (found, rest) -> Forall unitDraw rest.
Proof.
  revert rs. induction k as [|k IH]; intros rs Hu; simpl.
  - intros H. inversion H. subst. exact Hu.
  - destruct rs as [|r rs]; [discriminate|].
    apply Forall_cons in Hu. destruct Hu as [_ Hu].
    destruct (moveValid i _ s).
    + intros H. inversion H. subst. exact Hu.
    + apply IH. exact Hu.
Qed.

Lemma moveObstacle_tidy (i : nat) (s s' : State) (rs rs' : list Q) :
  tidy n s rs -> moveObstacle n i s rs = Ok (s', rs') -> tidy n s' rs'.
Proof using n_pos.
  intros [Hg Hu] H. unfold moveObstacle in H.
  destruct (obstacles s !! i) as [o|]; [| inversion H; subst; split; assumption].
  destruct rs as [|r0 rest]; [discriminate|].
  apply Forall_cons in Hu. destruct Hu as [_ Hu].
  destruct (Qltb r0 (2 # 10)); [| inversion H; subst; split; assumption].
  apply obind_Ok in H. destruct H as ([found rest'] & Hrel & H).
  pose proof (relocate_tidy _ _ _ _ _ _ _ Hu Hrel) as Hu'.
  pose proof (relocate_inv n _ _ _ _ _ _ _ Hrel) as Hf.
  destruct found as [np|]; inversion H; subst; split; try assumption.
  destruct Hf as (_ & r & ->). simpl.
  apply Forall_insert; [exact Hg | apply stepCandidate_inGrid; exact n_pos].
Qed.

Lemma forEachSlot_tidy (slots : list nat) (s s' : State) (rs rs' : list Q) :
  tidy n s rs -> forEachSlot n slots s rs = Ok (s', rs') -> tidy n s' rs'.
Proof using n_pos.
  revert s rs. induction slots as [|i slots IH]; intros s rs Ht H; simpl in H.
  - inversion H. subst. exact Ht.
  - apply obind_Ok in H. destruct H as ([s1 rs1] & Hstep & H).
    eapply IH; [| exact H]. eapply moveObstacle_tidy; eauto.
Qed.

Lemma update_tidy (s s' : State) (rs rs' : list Q) :
  tidy n s rs -> update n s rs = Ok (s', rs') -> tidy n s' rs'.
Proof using n_pos.
  intros Ht H. destruct (isPaused s) eqn:Hp.
  { unfold update in H. rewrite Hp in H. inversion H. subst. exact Ht. }
  destruct (update_inv _ _ _ _ _ Hp H) as (s1 & hit & Hm & Hc & Hrest).
  destruct (moveSnake_inv _ _ _ Hm) as (h & body & _ & ->).
  destruct hit.
  { destruct Hrest as [-> ->]. exact Ht. }
  destruct Hrest as (eaten & s2 & rs2 & _ & He & Ho).
  assert (T2 : tidy n s2 rs2).
  { destruct eaten.
    - eapply eatFood_tidy; [| exact He]. exact Ht.
    - destruct He as [-> ->]. exact Ht. }
  destruct (score s2 >=? 200).
  - eapply forEachSlot_tidy; [exact T2 | exact Ho].
  - destruct Ho as [-> ->]. exact T2.
Qed.

Lemma resetGame_tidy (s s' : State) (rs rs' : list Q) :
  Forall unitDraw rs -> resetGame n s rs = Ok (s', rs') -> tidy n s' rs'.
Proof using n_pos.
  intros Hu H. unfold resetGame in H.
  apply obind_Ok in H. destruct H as ([s7 rest] & Hsp & H).
  eapply spawnFood_tidy in Hsp; [| split; [constructor | exact Hu]].
  inversion H. subst. exact Hsp.
Qed.

Lemma fire_tidy (e : Event) (s s' : State) (rs rs' : list Q) :
  tidy n s rs -> fire n e s rs = Ok (s', rs') -> tidy n s' rs'.
Proof using n_pos.
  intros Ht H. destruct e; simpl in H.
  - inversion H. subst.
    destruct (handleKeyPress_frame key s) as (d & ->). exact Ht.
  - unfold startGame in H. destruct (gameLoop s).
    + eapply resetGame_tidy; [apply Ht | exact H].
    + inversion H. subst. exact Ht.
  - inversion H. subst. unfold togglePause. destruct (gameLoop s); exact Ht.
  - eapply resetGame_tidy; [apply Ht | exact H].
  - destruct (gameLoop s); [| inversion H; subst; exact Ht].
    eapply update_tidy; eauto.
Qed.

Lemma run_tidy (es : list Event) (s s' : State) (rs rs' : list Q) :
  tidy n s rs -> run n es s rs = Ok (s', rs') -> tidy n s' rs'.
Proof using n_pos.
  revert s rs. induction es as [|e es IH]; simpl; intros s rs Ht H.
  - inversion H. subst. exact Ht.
  - apply obind_Ok in H. destruct H as ([s1 rs1] & Hf & H).
    eapply IH; [| exact H]. eapply fire_tidy; eauto.
Qed.

(** In every state of a game the obstacles are cells of the grid. *)
Lemma reachable_inGrid (s : State) :
  reachable n s -> Forall (inGrid n) (obstacles s).
Proof using n_pos.
  intros (saved & hidden & es & rs & rs' & Hu & H).
  eapply run_tidy in H; [apply H|].
  split; [constructor | exact Hu].
Qed.

(** So are they when a tick of a game gets to the obstacle mover. *)
Lemma mover_inGrid (s0 s1 s2 : State) (rs rs2 : list Q) (eaten : bool) :
  reachable n s0 -> Forall unitDraw rs ->
  moveSnake n s0 = Ok s1 ->
  (if eaten then eatFood n s1 rs = Ok (s2, rs2) else s2 = s1) ->
  Forall (inGrid n) (obstacles s2).
Proof using n_pos.
  intros Hr Hu Hm He.
  apply reachable_inGrid in Hr.
  destruct (moveSnake_inv _ _ _ Hm) as (h & body & _ & ->).
  destruct eaten.
  - eapply eatFood_tidy in He; [apply He|]. split; assumption.
  - subst. exact Hr.
Qed.

End OnGrid.

(** ** Games on the 20 by 20 grid *)

Ltac unit_draws :=
  repeat (constructor;
          [split; [unfold Qle; simpl; lia | unfold Qlt; simpl; lia] |]);
  try constructor.

Lemma hungry_reachable : reachable 20 hungry.
Proof.
  exists 0, true, [ClickRestart; KeyDown "ArrowRight"], [tile 11; tile 10], [].
  split; [unit_draws | reflexivity].
Qed.

Lemma fed_reachable : reachable 20 fed.
Proof.
  exists 0, true, [ClickRestart; KeyDown "ArrowRight"; Tick],
    [tile 11; tile 10; tile 12; tile 10], [].
  split; [unit_draws | reflexivity].
Qed.

Lemma gameOver_reachable : reachable 20 gameOver.
Proof.
  exists 0, true, gameOverEvents, gameOverDraws, [].
  split; [unfold gameOverDraws; unit_draws | reflexivity].
Qed.

Lemma fourMeals_reachable : reachable 20 fourMeals.
Proof.
  exists 0, true, [ClickRestart; KeyDown "ArrowRight"; Tick; Tick; Tick; Tick],
    [tile 11; tile 10; tile 12; tile 10; tile 13; tile 10; tile 14; tile 10;
     tile 15; tile 10], [].
  split; [unit_draws | reflexivity].
Qed.

Lemma rolling_reachable : reachable 20 rolling.
Proof.
  exists 0, true, [ClickStart; KeyDown "ArrowRight"], [], [].
  split; [constructor | reflexivity].
Qed.

(** ** Start and restart *)

Lemma startGame_stopped (n : Z) (s : State) (rs : list Q) :
  gameLoop s = None ->
  startGame n s rs = Ok (set_gameLoop (Some 150) (set_gameSpeed 150 s), rs).
Proof. intros H. unfold startGame. rewrite H. reflexivity. Qed.

Lemma startGame_running (n : Z) (s : State) (rs : list Q) (period : Z) :
  gameLoop s = Some period -> startGame n s rs = resetGame n s rs.
Proof. intros H. unfold startGame. rewrite H. reflexivity. Qed.

(** C1: Start after a game over.  [gameOver] is a state of a game that has
    ended with score 20 and a snake of three segments.  [startGame] there
    starts the interval at 150 and changes nothing else: the snake, the
    direction and the score stay those of the game that ended, and the
    overlay stays shown.  [resetGame] in the same state puts them back to
    their values at the start of a game. *)
Theorem startGame_after_game_over :
  reachable 20 gameOver /\
  gameLoop gameOver = None /\ gameOverHidden gameOver = false /\
  (exists s',
      startGame 20 gameOver [] = Ok (s', []) /\
      gameLoop s' = Some 150 /\ gameSpeed s' = 150 /\
      snake s' = [mkCell 12 10; mkCell 13 10; mkCell 12 10] /\
      direction s' = Left /\ score s' = 20 /\ gameOverHidden s' = false) /\
  (exists r',
      resetGame 20 gameOver [tile 15; tile 15] = Ok (r', []) /\
      gameLoop r' = Some 150 /\ gameSpeed r' = 150 /\
      snake r' = [mkCell 10 10] /\
      direction r' = Neutral /\ score r' = 0 /\ obstacles r' = [] /\
      gameOverHidden r' = true).
Proof.
  split; [exact gameOver_reachable|].
  split; [reflexivity|]. split; [reflexivity|]. split.
  - eexists. split; [reflexivity|]. repeat split.
  - eexists. split; [reflexivity|]. repeat split.
Qed.

(** ** Two keys between two ticks *)

(** C10: the snake moves right on one tick; Up and then Left arrive before
    the next tick; Left alone would have been ignored, but after Up it is
    taken, and the next tick moves the snake left, the reverse of the
    direction of the tick before: the head is back on the cell it left. *)
Theorem double_input_reverses :
  exists s0 s1 s2 : State,
    reachable 20 s0 /\ direction s0 = Right /\
    update 20 s0 [] = Ok (s1, []) /\
    handleKeyPress "ArrowLeft" s1 = s1 /\
    direction (handleKeyPress "ArrowLeft" (handleKeyPress "ArrowUp" s1))
    = reverseOf (direction s0) /\
    update 20 (handleKeyPress "ArrowLeft" (handleKeyPress "ArrowUp" s1)) []
    = Ok (s2, []) /\
    snake s0 = [mkCell 10 10] /\ snake s1 = [mkCell 11 10] /\
    snake s2 = [mkCell 10 10].
Proof.
  exists rolling. eexists. eexists.
  split; [exact rolling_reachable|].
  split; [reflexivity|].
  split; [reflexivity|].
  repeat split.
Qed.

(** ** The claims the code does not meet *)

(** C2, as stated, fails: the snake of one segment at (10, 10) that eats at
    (11, 10) ends the tick with its last segment on (11, 10), not on
    (10, 10) where the tail was before the move. *)
Lemma growth_tail_counterexample :
  ~ (forall (s s1 s' : State) (rs rs' : list Q),
        reachable 20 s -> isPaused s = false ->
        moveSnake 20 s = Ok s1 ->
        checkCollision s1 = Ok false -> checkFoodCollision s1 = Ok true ->
        update 20 s rs = Ok (s', rs') ->
        length (snake s') = S (length (snake s)) /\
        last (snake s') = last (snake s)).
Proof.
  intros H.
  destruct (H hungry (set_snake [mkCell 11 10] hungry) fed
              [tile 12; tile 10] [] hungry_reachable) as [_ E];
    try reflexivity.
  vm_compute in E. discriminate E.
Qed.

(** C3, as stated, fails: the same tick takes a snake with distinct
    segments to one with two segments on (11, 10). *)
Lemma snake_distinct_counterexample :
  ~ (forall (e : Event) (s s' : State) (rs rs' : list Q),
        reachable 20 s -> NoDup (snake s) ->
        fire 20 e s rs = Ok (s', rs') -> NoDup (snake s')).
Proof.
  intros H.
  assert (D : NoDup (snake fed)).
  { apply (H Tick hungry fed [tile 12; tile 10] [] hungry_reachable);
      [| reflexivity].
    simpl. apply NoDup_singleton. }
  simpl in D. apply NoDup_cons in D. destruct D as [D _].
  apply D. apply list_elem_of_singleton. reflexivity.
Qed.

(** ** The theorems at work on concrete games *)

Lemma handleKeyPress_no_reversal_witness :
  cardinal (direction rolling) /\
  keyCommand "ArrowLeft" = Some (reverseOf (direction rolling)) /\
  handleKeyPress "ArrowLeft" rolling = rolling /\
  direction (handleKeyPress "ArrowLeft" rolling) = direction rolling.
Proof.
  assert (C : cardinal (direction rolling))
    by (right; right; right; reflexivity).
  split; [exact C|]. split; [reflexivity|].
  exact (handleKeyPress_no_reversal "ArrowLeft" rolling C eq_refl).
Defined.

Lemma moveSnake_wraps_head_witness :
  0 < 20 /\
  snake leftEdge = mkCell 0 7 :: [mkCell 1 7] /\
  cardinal (direction leftEdge) /\
  moveSnake 20 leftEdge = Ok (set_snake [mkCell 19 7; mkCell 0 7] leftEdge).
Proof.
  assert (P : 0 < 20) by lia.
  assert (C : cardinal (direction leftEdge)) by (right; right; left; reflexivity).
  split; [exact P|]. split; [reflexivity|]. split; [exact C|].
  destruct (moveSnake_wraps_head 20 P leftEdge 0 7 [mkCell 1 7] eq_refl
              ltac:(lia) ltac:(lia) (or_introl C)) as [E _].
  exact E.
Defined.

Lemma checkCollision_iff_witness :
  snake gameOver = mkCell 12 10 :: [mkCell 13 10; mkCell 12 10] /\
  checkCollision gameOver = Ok true /\
  (mkCell 12 10 ∈ [mkCell 13 10; mkCell 12 10] \/
   mkCell 12 10 ∈ obstacles gameOver).
Proof.
  split; [reflexivity|]. split; [reflexivity|].
  destruct (checkCollision_iff gameOver (mkCell 12 10)
              [mkCell 13 10; mkCell 12 10] eq_refl) as [(b & E & Hb) _].
  apply Hb. vm_compute in E. congruence.
Defined.

Lemma spawner_exclusive_witness :
  spawnFood 20 fed [tile 11; tile 10; tile 12; tile 10]
  = Ok (set_food (mkCell 12 10) fed, []) /\
  (mkCell 12 10 ∉ snake fed) /\ (mkCell 12 10 ∉ obstacles fed).
Proof.
  split; [reflexivity|].
  destruct (spawner_exclusive 20 fed [tile 11; tile 10; tile 12; tile 10])
    as [F _].
  destruct (F (set_food (mkCell 12 10) fed) [] eq_refl) as (_ & A & B).
  split; [exact A | exact B].
Defined.

Lemma eatFood_difficulty_witness :
  eats 20 fifthBite /\
  exists s' rs',
    eatFood 20 fifthBite [tile 0; tile 0; tile 1; tile 0] = Ok (s', rs') /\
    score s' = 50 /\ gameSpeed s' = 125 /\ length (obstacles s') = 1%nat.
Proof.
  assert (E : eats 20 fifthBite).
  { exists fourMeals. split; [exact fourMeals_reachable|].
    split; [discriminate|]. repeat split. }
  split; [exact E|].
  destruct (eatFood_difficulty 20 fifthBite [tile 0; tile 0; tile 1; tile 0] E)
    as [P T].
  assert (Z0 : Nat.Even (@length Q [])) by (exists 0%nat; reflexivity).
  destruct (T [] (tile 0) (tile 0) [] (tile 1) (tile 0) [] eq_refl Z0 Z0)
    as (s' & rs' & H); [discriminate | reflexivity | reflexivity |].
  destruct (P s' rs' H) as (A & B & _ & extra & D1 & D2).
  exists s', rs'. split; [exact H|]. split; [rewrite A; reflexivity|].
  split; [rewrite B; reflexivity|].
  rewrite D1, length_app, D2, A. reflexivity.
Defined.

Lemma moveObstacles_stay_or_step_witness :
  0 < 20 /\
  Forall (inGrid 20) (obstacles lateGame) /\
  moveObstacles 20 lateGame [1 # 10; 1 # 4; 0 # 1]%Q
  = Ok (set_obstacles [mkCell 5 4] lateGame, []) /\
  (mkCell 5 4 = mkCell 5 5 \/
   ((exists dir, cardinal dir /\ wrapStep 20 dir (mkCell 5 5) (mkCell 5 4)) /\
    (mkCell 5 4 ∉ snake lateGame) /\ mkCell 5 4 <> food lateGame /\
    (forall j, j <> 0%nat -> [mkCell 5 4] !! j <> Some (mkCell 5 4)))).
Proof.
  assert (P : 0 < 20) by lia.
  assert (G : Forall (inGrid 20) (obstacles lateGame)).
  { repeat constructor; simpl; lia. }
  split; [exact P|]. split; [exact G|]. split; [reflexivity|].
  destruct (moveObstacles_stay_or_step 20 P lateGame [1 # 10; 1 # 4; 0 # 1]%Q G)
    as [M _].
  destruct (M (set_obstacles [mkCell 5 4] lateGame) [] eq_refl) as [_ S].
  exact (S 0%nat (mkCell 5 5) (mkCell 5 4) eq_refl eq_refl).
Defined.

(** ** Invariants of a game: the rule *)

(** A property of the state and the draws to come holds throughout a game
    when the five things an event can do keep it: a key sets the direction,
    Start from a stopped game sets the interval, Pause flips the flag of a
    running game, Restart resets, and the timer of a running, unpaused game
    runs [update]. *)
Lemma fire_preserves (n : Z) (P : State -> list Q -> Prop) :
  (forall s rs d, P s rs -> P (set_direction d s) rs) ->
  (forall s rs, P s rs -> gameLoop s = None ->
                P (set_gameLoop (Some 150) (set_gameSpeed 150 s)) rs) ->
  (forall s rs, P s rs -> gameLoop s <> None ->
                P (set_isPaused (negb (isPaused s)) s) rs) ->
  (forall s rs s' rs', P s rs -> resetGame n s rs = Ok (s', rs') -> P s' rs') ->
  (forall s rs s' rs', P s rs -> gameLoop s <> None -> isPaused s = false ->
                       update n s rs = Ok (s', rs') -> P s' rs') ->
  forall e s rs s' rs', P s rs -> fire n e s rs = Ok (s', rs') -> P s' rs'.
Proof.
  intros Hkey Hstart Hpause Hreset Htick e s rs s' rs' HP H.
  destruct e; simpl in H.
  - inversion H. subst. destruct (handleKeyPress_frame key s) as (d & ->). auto.
  - unfold startGame in H. destruct (gameLoop s) eqn:Hg.
    + eapply Hreset; eauto.
    + inversion H. subst. auto.
  - inversion H. subst. unfold togglePause. destruct (gameLoop s) eqn:Hg; [| exact HP].
    apply Hpause; [exact HP | congruence].
  - eapply Hreset; eauto.
  - destruct (gameLoop s) eqn:Hg; [| inversion H; subst; exact HP].
    destruct (isPaused s) eqn:Hp.
    + unfold update in H. rewrite Hp in H. inversion H. subst. exact HP.
    + eapply Htick; eauto. congruence.
Qed.

Lemma run_preserves (n : Z) (P : State -> list Q -> Prop) :
  (forall e s rs s' rs', P s rs -> fire n e s rs = Ok (s', rs') -> P s' rs') ->
  forall es s rs s' rs', P s rs -> run n es s rs = Ok (s', rs') -> P s' rs'.
Proof.
  intros Hfire es. induction es as [|e es IH]; simpl; intros s rs s' rs' HP H.
  - inversion H. subst. exact HP.
  - apply obind_Ok in H. destruct H as ([s1 rs1] & Hf & H).
    eapply IH; [| exact H]. eapply Hfire; eauto.
Qed.

(** ** Keys *)

Lemma handleKeyPress_as_turn (key : string) (s : State) :
  handleKeyPress key s = turn key s.
Proof.
  unfold turn, keyCommand, handleKeyPress.
  destruct (String.eqb_spec key "ArrowUp") as [->|N1];
    [simpl; destruct (y (direction s) =? 0); reflexivity|].
  destruct (String.eqb_spec key "w") as [->|N2];
    [simpl; destruct (y (direction s) =? 0); reflexivity|].
  destruct (String.eqb_spec key "ArrowDown") as [->|N3];
    [simpl; destruct (y (direction s) =? 0); reflexivity|].
  destruct (String.eqb_spec key "s") as [->|N4];
    [simpl; destruct (y (direction s) =? 0); reflexivity|].
  destruct (String.eqb_spec key "ArrowLeft") as [->|N5];
    [simpl; destruct (x (direction s) =? 0); reflexivity|].
  destruct (String.eqb_spec key "a") as [->|N6];
    [simpl; destruct (x (direction s) =? 0); reflexivity|].
  destruct (String.eqb_spec key "ArrowRight") as [->|N7];
    [simpl; destruct (x (direction s) =? 0); reflexivity|].
  destruct (String.eqb_spec key "d") as [->|N8];
    [simpl; destruct (x (direction s) =? 0); reflexivity|].
  reflexivity.
Qed.

Lemma keyCommand_cardinal (key : string) (d : Cell) :
  keyCommand key = Some d -> cardinal d.
Proof.
  unfold keyCommand, cardinal.
  repeat match goal with
         | |- context [if ?b then _ else _] => destruct b
         end; intros H; inversion H; auto.
Qed.

Lemma handleKeyPress_fiveWay (key : string) (s : State) :
  fiveWay (direction s) -> fiveWay (direction (handleKeyPress key s)).
Proof.
  intros Hd. rewrite handleKeyPress_as_turn. unfold turn.
  destruct (keyCommand key) as [d|] eqn:E; [| exact Hd].
  destruct (if x d =? 0 then _ else _); [| exact Hd].
  left. eapply keyCommand_cardinal. exact E.
Qed.

(** ** Score, timer and pause flag *)

Lemma eatFood_meta (n : Z) (s s' : State) (rs rs' : list Q) :
  eatFood n s rs = Ok (s', rs') ->
  highScore s' = Z.max (highScore s) (score s + 10) /\
  gameLoop s' = (if gameSpeed s >? minSpeed
                 then Some (nextSpeed (gameSpeed s)) else gameLoop s) /\
  gameOverHidden s' = gameOverHidden s.
Proof.
  unfold eatFood. intros H.
  set (s1 := set_score (score s + 10) s) in *.
  set (s2 := if score s1 >? highScore s1 then set_highScore (score s1) s1 else s1) in *.
  assert (E2 : highScore s2 = Z.max (highScore s) (score s + 10) /\
               gameLoop s2 = gameLoop s /\ gameSpeed s2 = gameSpeed s /\
               gameOverHidden s2 = gameOverHidden s).
  { subst s2 s1. simpl. destruct (Z.gtb_spec (score s + 10) (highScore s));
      simpl; repeat split; lia. }
  destruct E2 as (Ehs & Egl & Esp & Eov). clearbody s2. clear s1.
  destruct (last (snake s2)) as [tl|]; [| discriminate].
  apply obind_Ok in H. destruct H as ([s4 rs4] & Ho & H).
  assert (E4 : highScore s4 = highScore s2 /\ gameLoop s4 = gameLoop s2 /\
               gameSpeed s4 = gameSpeed s2 /\ gameOverHidden s4 = gameOverHidden s2).
  { destruct (_ && _) in Ho.
    - apply spawnObstacle_inv in Ho. destruct Ho as (c & -> & _). simpl. auto.
    - inversion Ho. subst. simpl. auto. }
  destruct E4 as (E4hs & E4gl & E4sp & E4ov).
  apply spawnFood_inv in H. destruct H as (cf & -> & _).
  unfold nextSpeed. rewrite <- Esp, <- E4sp, <- Ehs, <- E4hs, <- Egl, <- E4gl,
    <- Eov, <- E4ov.
  destruct (gameSpeed s4 >? minSpeed); simpl; auto.
Qed.

Lemma moveSnake_length (n : Z) (s s1 : State) :
  moveSnake n s = Ok s1 -> length (snake s1) = length (snake s).
Proof.
  intros H. destruct (moveSnake_inv _ _ _ H) as (h & body & Hs & ->).
  cbn [snake set_snake length]. rewrite Hs, length_removelast_cons. reflexivity.
Qed.

Lemma obstacleDue_div (sc : Z) (k : Z) :
  0 <= k -> sc = 10 * k ->
  (sc + 10) / 50 = sc / 50 + (if obstacleDue (sc + 10) then 1 else 0).
Proof.
  intros Hk ->. unfold obstacleDue.
  rewrite Z.rem_mod_nonneg by lia.
  destruct (Z.geb_spec (10 * k + 10) 50), (Z.eqb_spec ((10 * k + 10) mod 50) 0);
    simpl; Z.to_euclidean_division_equations; lia.
Qed.

Lemma update_tally (n : Z) (s s' : State) (rs rs' : list Q) :
  tally s -> isPaused s = false -> update n s rs = Ok (s', rs') -> tally s'.
Proof.
  intros [Hsc Hob] Hp H.
  destruct (update_inv _ _ _ _ _ Hp H) as (s1 & hit & Hm & Hc & Hrest).
  pose proof (moveSnake_length _ _ _ Hm) as Hlen.
  destruct (moveSnake_inv _ _ _ Hm) as (h & body & Hs & E1).
  assert (T1 : tally s1).
  { unfold tally. rewrite Hlen. rewrite E1. simpl. auto. }
  destruct hit.
  { destruct Hrest as [-> _]. exact T1. }
  destruct Hrest as (eaten & s2 & rs2 & _ & He & Ho).
  assert (T2 : tally s2).
  { destruct eaten; [| destruct He as [-> _]; exact T1].
    destruct T1 as [Hsc1 Hob1].
    apply eatFood_inv in He.
    destruct He as (tl & extra & _ & Esn & Esc & _ & Eob & Hex & _).
    unfold tally. rewrite Esn, Esc, Eob, !length_app. cbn [length].
    assert (Hk : 0 <= Z.of_nat (length (snake s1)) - 1).
    { rewrite Hlen, Hs. cbn [length]. lia. }
    rewrite (obstacleDue_div _ _ Hk Hsc1).
    split; [lia|].
    destruct (obstacleDue (score s1 + 10)).
    - destruct Hex as (c & -> & _). cbn [length]. lia.
    - rewrite Hex. cbn [length]. lia. }
  destruct (score s2 >=? 200).
  - apply moveObstacles_frame in Ho. destruct Ho as (o' & -> & L).
    unfold tally in *. simpl. rewrite L. exact T2.
  - destruct Ho as [-> _]. exact T2.
Qed.

Lemma reachable_tally (n : Z) (s : State) : reachable n s -> tally s.
Proof.
  intros (saved & hidden & es & rs & rs' & _ & H).
  apply (run_preserves n (fun t _ => tally t)) in H; [exact H | | split; reflexivity].
  apply fire_preserves; auto.
  - intros t ds t' ds' _ Hr. apply resetGame_inv in Hr.
    destruct Hr as (c & -> & _). split; reflexivity.
  - intros t ds t' ds' Ht _ Hp Hu. eapply update_tally; eauto.
Qed.

(** X4: in every state of a game the score is ten times the number of
    segments the snake has grown: score = 10 * (length of the snake - 1). *)
Theorem score_counts_segments (n : Z) (s : State) :
  reachable n s -> score s = 10 * (Z.of_nat (length (snake s)) - 1).
Proof. intros H. apply (reachable_tally n s H). Qed.

(** X5: in every state of a game the number of obstacles is the number of
    multiples of 50 the score has reached: the integer part of score / 50. *)
Theorem obstacles_count_fifties (n : Z) (s : State) :
  reachable n s -> Z.of_nat (length (obstacles s)) = score s / 50.
Proof. intros H. apply (reachable_tally n s H). Qed.

Lemma update_timed (n : Z) (s s' : State) (rs rs' : list Q) :
  timed s -> gameLoop s <> None -> isPaused s = false ->
  update n s rs = Ok (s', rs') -> timed s'.
Proof.
  intros [Hsp Hgl] Hrun Hp H.
  destruct (update_inv _ _ _ _ _ Hp H) as (s1 & hit & Hm & Hc & Hrest).
  destruct (moveSnake_inv _ _ _ Hm) as (h & body & Hs & ->).
  destruct hit.
  { destruct Hrest as [-> _]. split; [exact Hsp|]. simpl. discriminate. }
  destruct Hrest as (eaten & s2 & rs2 & _ & He & Ho).
  assert (T2 : timed s2).
  { destruct eaten; [| destruct He as [-> _]; split; assumption].
    pose proof (eatFood_meta _ _ _ _ _ He) as (_ & Egl & _).
    apply eatFood_inv in He.
    destruct He as (tl & extra & _ & _ & _ & Esp & _).
    simpl in Egl, Esp.
    destruct (gameLoop s) as [p|] eqn:Hg; [| congruence].
    destruct (Hgl p eq_refl) as [-> Hp150].
    unfold timed. rewrite Esp, Egl. unfold nextSpeed, minSpeed, speedIncrement in *.
    destruct (Z.gtb_spec (gameSpeed s) 50).
    - split; [lia|]. intros q Hq. inversion Hq. lia.
    - split; [lia|]. intros q Hq. inversion Hq. lia. }
  destruct (score s2 >=? 200).
  - apply moveObstacles_frame in Ho. destruct Ho as (o' & -> & _). exact T2.
  - destruct Ho as [-> _]. exact T2.
Qed.

(** X6: in every state of a game [gameSpeed] lies between 50 and 250, and
    whenever an interval is set its period is the current [gameSpeed] and is
    at most 150: every change of the speed reschedules the timer. *)
Theorem timer_follows_gameSpeed (n : Z) (s : State) :
  reachable n s ->
  50 <= gameSpeed s <= 250 /\
  forall period, gameLoop s = Some period ->
                 period = gameSpeed s /\ period <= 150.
Proof.
  intros (saved & hidden & es & rs & rs' & _ & H).
  apply (run_preserves n (fun t _ => timed t)) in H; [exact H | |].
  - apply fire_preserves; auto.
    + intros t ds [Hsp Hgl] _. split; [unfold minSpeed; simpl; lia|].
      simpl. intros p Hp. inversion Hp. lia.
    + intros t ds t' ds' _ Hr. apply resetGame_inv in Hr.
      destruct Hr as (c & -> & _). split; [unfold minSpeed; simpl; lia|].
      simpl. intros p Hp. inversion Hp. lia.
    + intros t ds t' ds' Ht Hg Hp Hu. eapply update_timed; eauto.
  - split; [unfold minSpeed; simpl; lia | simpl; discriminate].
Qed.

Lemma update_stopped (n : Z) (s s' : State) (rs rs' : list Q) :
  isPaused s = false -> update n s rs = Ok (s', rs') ->
  isPaused s' = false /\ (gameLoop s <> None -> gameLoop s' = None ->
                          exists s1, moveSnake n s = Ok s1 /\
                                     checkCollision s1 = Ok true /\
                                     s' = endGame s1 /\ rs' = rs).
Proof.
  intros Hp H.
  destruct (update_inv _ _ _ _ _ Hp H) as (s1 & hit & Hm & Hc & Hrest).
  pose proof (moveSnake_inv _ _ _ Hm) as (h & body & Hs & E1).
  destruct hit.
  { destruct Hrest as [-> ->]. split; [rewrite E1; exact Hp|]. eauto. }
  destruct Hrest as (eaten & s2 & rs2 & _ & He & Ho).
  assert (T2 : isPaused s2 = false /\ (gameLoop s <> None -> gameLoop s2 <> None)).
  { destruct eaten.
    - apply eatFood_inv in He.
      destruct He as (tl & extra & _ & _ & _ & _ & _ & _ & _ & _ & _ & Epa & Egl).
      rewrite Epa, E1 in *. simpl in *. auto.
    - destruct He as [-> _]. rewrite E1. simpl. auto. }
  assert (E : isPaused s' = isPaused s2 /\ gameLoop s' = gameLoop s2).
  { destruct (score s2 >=? 200).
    - apply moveObstacles_frame in Ho. destruct Ho as (o' & -> & _). auto.
    - destruct Ho as [-> _]. auto. }
  destruct E as [-> ->]. split; [apply T2|].
  intros Hg Hn. exfalso. apply (proj2 T2 Hg Hn).
Qed.

(** X7: a game that is stopped (no interval set: before Start, after a game
    over) is never paused, so the first tick after Start moves the snake. *)
Theorem stopped_is_unpaused (n : Z) (s : State) :
  reachable n s -> gameLoop s = None -> isPaused s = false.
Proof.
  intros (saved & hidden & es & rs & rs' & _ & H).
  refine (run_preserves n (fun t _ => gameLoop t = None -> isPaused t = false)
            _ es _ rs s rs' _ H); [| reflexivity].
  apply (fire_preserves n (fun t _ => gameLoop t = None -> isPaused t = false)).
  - intros t ds d Ht. exact Ht.
  - intros t ds _ _. simpl. discriminate.
  - intros t ds _ Hg. simpl. intros Hn. congruence.
  - intros t ds t' ds' _ Hr. apply resetGame_inv in Hr.
    destruct Hr as (c & -> & _). reflexivity.
  - intros t ds t' ds' _ _ Hp Hu _. apply (update_stopped _ _ _ _ _ Hp Hu).
Qed.

(** X3: from a saved high score that is not negative, the high score never
    falls below the saved one nor below the current score, and no event
    lowers it. *)
Theorem highScore_never_behind (n : Z) (saved : Z) (hidden : bool)
        (es : list Event) (e : Event) (s s' : State) (rs rs1 rs2 : list Q) :
  0 <= saved ->
  run n es (initialState saved hidden) rs = Ok (s, rs1) ->
  (saved <= highScore s /\ score s <= highScore s) /\
  (fire n e s rs1 = Ok (s', rs2) -> highScore s <= highScore s').
Proof.
  intros Hsaved H. split.
  - apply (run_preserves n (fun t _ => saved <= highScore t /\ score t <= highScore t))
      in H; [exact H | | simpl; lia].
    apply fire_preserves; auto.
    + intros t ds t' ds' [H1 H2] Hr. apply resetGame_inv in Hr.
      destruct Hr as (c & -> & _). simpl. lia.
    + intros t ds t' ds' [H1 H2] _ Hp Hu.
      destruct (update_inv _ _ _ _ _ Hp Hu) as (s1 & hit & Hm & Hc & Hrest).
      destruct (moveSnake_inv _ _ _ Hm) as (h & body & Hs & ->).
      destruct hit; [destruct Hrest as [-> _]; simpl; lia|].
      destruct Hrest as (eaten & s2 & rs2' & _ & He & Ho).
      assert (T2 : saved <= highScore s2 /\ score s2 <= highScore s2).
      { destruct eaten; [| destruct He as [-> _]; simpl; lia].
        pose proof (eatFood_meta _ _ _ _ _ He) as (Ehs & _).
        apply eatFood_inv in He.
        destruct He as (tl & extra & _ & _ & Esc & _).
        rewrite Ehs, Esc. simpl. lia. }
      destruct (score s2 >=? 200).
      * apply moveObstacles_frame in Ho. destruct Ho as (o' & -> & _). exact T2.
      * destruct Ho as [-> _]. exact T2.
  - intros Hf.
    apply (fire_preserves n (fun t _ => highScore s <= highScore t)
             ltac:(auto) ltac:(auto) ltac:(auto)) with (e := e) (s := s) (rs := rs1)
      in Hf; [exact Hf | | | lia].
    + intros t ds t' ds' Ht Hr. apply resetGame_inv in Hr.
      destruct Hr as (c & -> & _). exact Ht.
    + intros t ds t' ds' Ht _ Hp Hu.
      destruct (update_inv _ _ _ _ _ Hp Hu) as (s1 & hit & Hm & Hc & Hrest).
      destruct (moveSnake_inv _ _ _ Hm) as (h & body & Hs & ->).
      destruct hit; [destruct Hrest as [-> _]; exact Ht|].
      destruct Hrest as (eaten & s2 & rs2' & _ & He & Ho).
      assert (T2 : highScore s <= highScore s2).
      { destruct eaten; [| destruct He as [-> _]; exact Ht].
        pose proof (eatFood_meta _ _ _ _ _ He) as (Ehs & _).
        rewrite Ehs. simpl. simpl in Ht. lia. }
      destruct (score s2 >=? 200).
      * apply moveObstacles_frame in Ho. destruct Ho as (o' & -> & _). exact T2.
      * destruct Ho as [-> _]. exact T2.
Qed.

(** ** Where the food and the obstacles are *)

Lemma elem_of_insert_inv (c np : Cell) (i : nat) (l : list Cell) :
  c ∈ <[i := np]> l -> c = np \/ c ∈ l.
Proof.
  intros H. apply list_elem_of_lookup in H. destruct H as (j & Hj).
  apply list_lookup_insert_Some in Hj.
  destruct Hj as [(_ & -> & _) | (_ & Hl)]; [left; reflexivity|].
  right. apply list_elem_of_lookup. eauto.
Qed.

Lemma forEachSlot_avoids_food (n : Z) (slots : list nat) (s s' : State)
      (rs rs' : list Q) :
  forEachSlot n slots s rs = Ok (s', rs') ->
  food s ∉ obstacles s -> food s' ∉ obstacles s'.
Proof.
  revert s rs. induction slots as [|i slots IH]; intros s rs H Hf; simpl in H.
  - inversion H. subst. exact Hf.
  - apply obind_Ok in H. destruct H as ([s1 rs1] & Hstep & H).
    apply (IH _ _ H). apply moveObstacle_inv in Hstep.
    destruct Hstep as [-> | (o & r & Ho & Hv & ->)]; [exact Hf|].
    apply moveValid_free in Hv. destruct Hv as (_ & Hne & _).
    simpl. intros Hin. apply elem_of_insert_inv in Hin.
    destruct Hin as [E | Hin]; [congruence | contradiction].
Qed.

Lemma update_foodFree (n : Z) (s s' : State) (rs rs' : list Q) :
  foodFree s -> isPaused s = false -> update n s rs = Ok (s', rs') -> foodFree s'.
Proof.
  intros [Hsn Hob] Hp H.
  destruct (update_inv _ _ _ _ _ Hp H) as (s1 & hit & Hm & Hc & Hrest).
  destruct (moveSnake_inv _ _ _ Hm) as (h & body & Hs & E1).
  set (head' := mkCell (wrap n (x h + x (direction s)))
                       (wrap n (y h + y (direction s)))) in *.
  assert (Hrl : food s ∉ removelast (snake s)).
  { intros Hin. apply Hsn, elem_of_removelast, Hin. }
  assert (Hcol : checkCollision s1
                 = Ok (bool_decide (head' ∈ removelast (snake s)
                                    \/ head' ∈ obstacles s))).
  { rewrite E1. unfold checkCollision. cbn [snake set_snake obstacles]. f_equal.
    destruct (existsb _ (removelast (snake s))) eqn:A;
      destruct (existsb _ (obstacles s)) eqn:B; simpl; symmetry;
      rewrite ?bool_decide_eq_true, ?bool_decide_eq_false;
      try (apply headAt_true in A); try (apply headAt_true in B); auto.
    intros [K|K]; apply headAt_true in K; congruence. }
  rewrite Hc in Hcol. inversion Hcol as [Hhit]. clear Hcol.
  destruct hit.
  { destruct Hrest as [-> _]. rewrite E1. unfold foodFree. simpl.
    symmetry in Hhit. apply bool_decide_eq_true in Hhit.
    split; [| exact Hob].
    intros Hin. apply elem_of_cons in Hin.
    destruct Hin as [E | Hin]; [| contradiction].
    rewrite <- E in Hhit. tauto. }
  destruct Hrest as (eaten & s2 & rs2 & Hfc & He & Ho).
  assert (T2 : foodFree s2).
  { destruct eaten.
    - apply eatFood_inv in He.
      destruct He as (tl & extra & _ & _ & _ & _ & _ & _ & F1 & F2 & _).
      split; assumption.
    - destruct He as [-> _]. rewrite E1 in Hfc |- *. unfold foodFree. simpl.
      unfold checkFoodCollision in Hfc. simpl in Hfc. inversion Hfc as [Hne].
      apply sameCell_false in Hne.
      split; [| exact Hob].
      intros Hin. apply elem_of_cons in Hin.
      destruct Hin as [E | Hin]; [| contradiction].
      apply Hne. symmetry. exact E. }
  destruct (score s2 >=? 200).
  - pose proof (forEachSlot_avoids_food _ _ _ _ _ _ Ho (proj2 T2)) as Hf.
    apply moveObstacles_frame in Ho. destruct Ho as (o' & -> & _).
    split; [exact (proj1 T2) | exact Hf].
  - destruct Ho as [-> _]. exact T2.
Qed.

(** X9: in every state of a game the food lies on no segment of the snake
    and on no obstacle. *)
Theorem food_on_free_cell (n : Z) (s : State) :
  reachable n s -> (food s ∉ snake s) /\ (food s ∉ obstacles s).
Proof.
  intros (saved & hidden & es & rs & rs' & _ & H).
  refine (run_preserves n (fun t _ => foodFree t) _ es _ rs s rs' _ H).
  - apply (fire_preserves n (fun t _ => foodFree t)); auto.
    + intros t ds t' ds' _ Hr. apply resetGame_inv in Hr.
      destruct Hr as (c & -> & Hc). split; simpl.
      * intros Hin. apply list_elem_of_singleton in Hin. contradiction.
      * apply not_elem_of_nil.
    + intros t ds t' ds' Ht _ Hp Hu. eapply update_foodFree; eauto.
  - split; simpl.
    + intros Hin. apply list_elem_of_singleton in Hin. discriminate.
    + apply not_elem_of_nil.
Qed.

Lemma NoDup_insert_fresh (np : Cell) (i : nat) (l : list Cell) :
  NoDup l -> (forall k, k <> i -> l !! k <> Some np) -> NoDup (<[i := np]> l).
Proof.
  intros Hnd Hfresh. apply NoDup_alt. intros a b c Ha Hb.
  apply list_lookup_insert_Some in Ha, Hb.
  destruct Ha as [(-> & -> & _) | (Hia & Ha)], Hb as [(-> & E & _) | (Hib & Hb)].
  - reflexivity.
  - exfalso. apply (Hfresh b); [congruence | exact Hb].
  - subst c. exfalso. apply (Hfresh a); [congruence | exact Ha].
  - eapply NoDup_lookup; eauto.
Qed.

Lemma forEachSlot_NoDup (n : Z) (slots : list nat) (s s' : State)
      (rs rs' : list Q) :
  forEachSlot n slots s rs = Ok (s', rs') ->
  NoDup (obstacles s) -> NoDup (obstacles s').
Proof.
  revert s rs. induction slots as [|i slots IH]; intros s rs H Hnd; simpl in H.
  - inversion H. subst. exact Hnd.
  - apply obind_Ok in H. destruct H as ([s1 rs1] & Hstep & H).
    apply (IH _ _ H). apply moveObstacle_inv in Hstep.
    destruct Hstep as [-> | (o & r & Ho & Hv & ->)]; [exact Hnd|].
    apply moveValid_free in Hv. destruct Hv as (_ & _ & Hfresh).
    simpl. apply NoDup_insert_fresh; assumption.
Qed.

(** X10: in every state of a game no two obstacles are on the same cell. *)
Theorem obstacles_distinct (n : Z) (s : State) :
  reachable n s -> NoDup (obstacles s).
Proof.
  intros (saved & hidden & es & rs & rs' & _ & H).
  refine (run_preserves n (fun t _ => NoDup (obstacles t)) _ es _ rs s rs' _ H);
    [| constructor].
  apply (fire_preserves n (fun t _ => NoDup (obstacles t))); auto.
  - intros t ds t' ds' _ Hr. apply resetGame_inv in Hr.
    destruct Hr as (c & -> & _). constructor.
  - intros t ds t' ds' Ht _ Hp Hu.
    destruct (update_inv _ _ _ _ _ Hp Hu) as (s1 & hit & Hm & Hc & Hrest).
    destruct (moveSnake_inv _ _ _ Hm) as (h & body & Hs & ->).
    destruct hit; [destruct Hrest as [-> _]; exact Ht|].
    destruct Hrest as (eaten & s2 & rs2 & _ & He & Ho).
    assert (T2 : NoDup (obstacles s2)).
    { destruct eaten; [| destruct He as [-> _]; exact Ht].
      apply eatFood_inv in He.
      destruct He as (tl & extra & _ & _ & _ & _ & Eob & Hex & _).
      rewrite Eob. simpl in *. destruct (obstacleDue _).
      - destruct Hex as (c & -> & _ & _ & Hc').
        apply NoDup_app. split; [exact Ht|]. split; [| apply NoDup_singleton].
        intros a Ha Hin. apply list_elem_of_singleton in Hin. subst. contradiction.
      - rewrite Hex, app_nil_r. exact Ht. }
    destruct (score s2 >=? 200).
    + eapply forEachSlot_NoDup; [exact Ho | exact T2].
    + destruct Ho as [-> _]. exact T2.
Qed.

(** ** Every cell stays on the grid *)

Lemma Forall_removelast_cells (P : Cell -> Prop) (l : list Cell) :
  Forall P l -> Forall P (removelast l).
Proof.
  rewrite !Forall_forall. intros H c Hin. apply H, elem_of_removelast, Hin.
Qed.

Lemma spawnFood_food_inGrid (n : Z) (s s' : State) (rs rs' : list Q) :
  0 < n -> Forall unitDraw rs ->
  spawnFood n s rs = Ok (s', rs') -> inGrid n (food s').
Proof.
  intros Hn Hu H. unfold spawnFood in H.
  apply obind_Ok in H. destruct H as ([c rest] & Hl & H).
  inversion H. subst. simpl.
  apply (rejectionLoop_tidy n Hn _ _ _ _ Hu Hl).
Qed.

Lemma eatFood_food_inGrid (n : Z) (s s' : State) (rs rs' : list Q) :
  0 < n -> tidy n s rs -> eatFood n s rs = Ok (s', rs') -> inGrid n (food s').
Proof.
  intros Hn Ht H. unfold eatFood in H.
  set (s1 := set_score (score s + 10) s) in *.
  set (s2 := if score s1 >? highScore s1 then set_highScore (score s1) s1 else s1) in *.
  assert (E2 : obstacles s2 = obstacles s).
  { subst s2. destruct (score s1 >? highScore s1); reflexivity. }
  clearbody s2. clear s1.
  destruct (last (snake s2)) as [tl|]; [| discriminate].
  apply obind_Ok in H. destruct H as ([s4 rs4] & Ho & H).
  assert (T4 : tidy n s4 rs4).
  { destruct (_ && _) in Ho.
    - eapply spawnObstacle_tidy; [exact Hn | | exact Ho].
      apply (tidy_obstacles n s); [exact E2 | exact Ht].
    - inversion Ho. subst. apply (tidy_obstacles n s); [exact E2 | exact Ht]. }
  eapply spawnFood_food_inGrid; [exact Hn | apply T4 | exact H].
Qed.

Lemma update_gridded (n : Z) (s s' : State) (rs rs' : list Q) :
  0 < n -> gridded n s rs -> isPaused s = false ->
  update n s rs = Ok (s', rs') -> gridded n s' rs'.
Proof.
  intros Hn (Gs & Gf & Gt) Hp H.
  pose proof (update_tidy n Hn _ _ _ _ Gt H) as Gt'.
  destruct (update_inv _ _ _ _ _ Hp H) as (s1 & hit & Hm & Hc & Hrest).
  destruct (moveSnake_inv _ _ _ Hm) as (h & body & Hs & E1).
  assert (G1 : Forall (inGrid n) (snake s1)).
  { rewrite E1. simpl. constructor.
    - split; simpl; apply wrap_inGrid; exact Hn.
    - apply Forall_removelast_cells. exact Gs. }
  assert (T1 : tidy n s1 rs) by (rewrite E1; exact Gt).
  assert (F1 : food s1 = food s) by (rewrite E1; reflexivity).
  destruct hit.
  { destruct Hrest as [-> ->]. split; [exact G1|].
    split; [simpl; rewrite F1; exact Gf | exact T1]. }
  destruct Hrest as (eaten & s2 & rs2 & _ & He & Ho).
  assert (G2 : Forall (inGrid n) (snake s2) /\ inGrid n (food s2)).
  { destruct eaten; [| destruct He as [-> _]; rewrite F1; auto].
    split; [| eapply eatFood_food_inGrid; eauto].
    apply eatFood_inv in He. destruct He as (tl & extra & Hl & Esn & _).
    rewrite Esn. apply Forall_app. split; [exact G1|].
    constructor; [| constructor].
    apply last_Some_elem_of in Hl.
    rewrite Forall_forall in G1. apply G1, Hl. }
  assert (E : snake s' = snake s2 /\ food s' = food s2).
  { destruct (score s2 >=? 200).
    - apply moveObstacles_frame in Ho. destruct Ho as (o' & -> & _). auto.
    - destruct Ho as [-> _]. auto. }
  destruct E as [Es Ef]. split; [rewrite Es; apply G2|].
  split; [rewrite Ef; apply G2 | exact Gt'].
Qed.

(** X8: on a grid of more than 15 tiles a side, every segment of the snake,
    the food and every obstacle are cells of the grid in every state of a
    game: no coordinate ever leaves 0 .. tileCount - 1. *)
Theorem cells_stay_on_grid (n : Z) (s : State) :
  15 < n -> reachable n s ->
  Forall (inGrid n) (snake s) /\ inGrid n (food s) /\
  Forall (inGrid n) (obstacles s).
Proof.
  intros Hn (saved & hidden & es & rs & rs' & Hu & H).
  assert (Hpos : 0 < n) by lia.
  assert (G : gridded n s rs').
  { refine (run_preserves n (gridded n) _ es _ rs s rs' _ H).
    - apply fire_preserves; auto.
      + intros t ds t' ds' (_ & _ & _ & Hd) Hr.
        pose proof (resetGame_tidy n Hpos _ _ _ _ Hd Hr) as Ht'.
        unfold resetGame in Hr.
        apply obind_Ok in Hr. destruct Hr as ([s7 rest] & Hsp & Hr).
        pose proof (spawnFood_food_inGrid n _ _ _ _ Hpos Hd Hsp) as Hf.
        apply spawnFood_inv in Hsp. destruct Hsp as (c & -> & _).
        inversion Hr. subst. split; [| split; [exact Hf | exact Ht']].
        simpl. repeat constructor; simpl; lia.
      + intros t ds t' ds' Ht _ Hp Hup. eapply update_gridded; eauto.
    - split; [| split; [| split; [constructor | exact Hu]]].
      + simpl. repeat constructor; simpl; lia.
      + split; simpl; lia. }
  destruct G as (Gs & Gf & Go & _). auto.
Qed.

(** ** No TypeError *)

Lemma rejectionLoop_no_throw (n : Z) (valid : Cell -> bool) (rs : list Q) :
  rejectionLoop n valid rs <> Throw.
Proof.
  induction rs as [| r | r1 r2 rs IH] using pairs_ind;
    cbn [rejectionLoop]; try discriminate.
  destruct (valid (drawnCell n r1 r2)); [discriminate | exact IH].
Qed.

Lemma obind_Throw {A B : Type} (m : outcome A) (k : A -> outcome B) :
  obind m k = Throw -> m = Throw \/ exists a, m = Ok a /\ k a = Throw.
Proof. destruct m; simpl; intros H; try discriminate; eauto. Qed.

Lemma spawnFood_no_throw (n : Z) (s : State) (rs : list Q) :
  spawnFood n s rs <> Throw.
Proof.
  unfold spawnFood. intros H. apply obind_Throw in H.
  destruct H as [H | ([c rest] & _ & H)]; [| discriminate].
  exact (rejectionLoop_no_throw _ _ _ H).
Qed.

Lemma spawnObstacle_no_throw (n : Z) (s : State) (rs : list Q) :
  spawnObstacle n s rs <> Throw.
Proof.
  unfold spawnObstacle. intros H. apply obind_Throw in H.
  destruct H as [H | ([c rest] & _ & H)]; [| discriminate].
  exact (rejectionLoop_no_throw _ _ _ H).
Qed.

Lemma eatFood_no_throw (n : Z) (s : State) (rs : list Q) :
  snake s <> [] -> eatFood n s rs <> Throw.
Proof.
  intros Hne H. unfold eatFood in H.
  set (s1 := set_score (score s + 10) s) in *.
  set (s2 := if score s1 >? highScore s1 then set_highScore (score s1) s1 else s1) in *.
  assert (E2 : snake s2 = snake s).
  { subst s2. destruct (score s1 >? highScore s1); reflexivity. }
  clearbody s2. clear s1.
  destruct (last (snake s2)) as [tl|] eqn:Hl.
  2:{ apply last_None in Hl. congruence. }
  apply obind_Throw in H. destruct H as [H | ([s4 rs4] & _ & H)].
  - destruct (_ && _) in H; [| discriminate].
    exact (spawnObstacle_no_throw _ _ _ H).
  - exact (spawnFood_no_throw _ _ _ H).
Qed.

Lemma relocate_no_throw (n : Z) (k i : nat) (o : Cell) (s : State) (rs : list Q) :
  relocate n k i o s rs <> Throw.
Proof.
  revert rs. induction k as [|k IH]; intros rs; simpl; [discriminate|].
  destruct rs as [|r rs]; [discriminate|].
  destruct (moveValid i _ s); [discriminate | apply IH].
Qed.

Lemma forEachSlot_no_throw (n : Z) (slots : list nat) (s : State) (rs : list Q) :
  forEachSlot n slots s rs <> Throw.
Proof.
  revert s rs. induction slots as [|i slots IH]; intros s rs; simpl; [discriminate|].
  intros H. apply obind_Throw in H.
  destruct H as [H | ([s1 rs1] & _ & H)]; [| exact (IH _ _ H)].
  unfold moveObstacle in H.
  destruct (obstacles s !! i); [| discriminate].
  destruct rs as [|r0 rest]; [discriminate|].
  destruct (Qltb r0 (2 # 10)); [| discriminate].
  apply obind_Throw in H.
  destruct H as [H | ([[np|] rest'] & _ & H)]; try discriminate.
  exact (relocate_no_throw _ _ _ _ _ _ H).
Qed.

Lemma update_no_throw (n : Z) (s : State) (rs : list Q) :
  snake s <> [] -> update n s rs <> Throw.
Proof.
  intros Hne H. unfold update in H.
  destruct (isPaused s); [discriminate|].
  destruct (snake s) as [|h body] eqn:Hs; [congruence|].
  unfold moveSnake in H. rewrite Hs in H. cbn [obind] in H.
  match type of H with
  | obind (checkCollision ?st) _ = _ => set (s1 := st) in *
  end.
  assert (Hs1 : exists h1 body1, snake s1 = h1 :: body1).
  { subst s1. cbn [snake set_snake]. rewrite removelast_cons by discriminate. eauto. }
  destruct Hs1 as (h1 & body1 & Hs1).
  unfold checkCollision, checkFoodCollision in H. rewrite Hs1 in H.
  cbn [obind] in H.
  destruct (_ || _); [discriminate|].
  apply obind_Throw in H. destruct H as [H | ([s2 rs2] & _ & H)].
  - destruct (sameCell h1 (food s1)); [| discriminate].
    apply (eatFood_no_throw n s1 rs); [rewrite Hs1; discriminate | exact H].
  - destruct (score s2 >=? 200); [| discriminate].
    exact (forEachSlot_no_throw _ _ _ _ H).
Qed.

(** X13: in a game no event raises the TypeError of reading the head of an
    empty snake: whatever the event and the draws, the handler returns or
    is still asking for draws. *)
Theorem no_TypeError_in_a_game (n : Z) (s : State) (e : Event) (rs : list Q) :
  reachable n s -> fire n e s rs <> Throw.
Proof.
  intros Hr. apply reachable_sane in Hr. destruct Hr as (_ & Hne & _).
  assert (Hres : resetGame n s rs <> Throw).
  { unfold resetGame. intros H. apply obind_Throw in H.
    destruct H as [H | ([s7 rest] & _ & H)]; [| discriminate].
    exact (spawnFood_no_throw _ _ _ H). }
  destruct e; simpl; try discriminate; try exact Hres.
  - unfold startGame. destruct (gameLoop s); [exact Hres | discriminate].
  - destruct (gameLoop s); [| discriminate]. apply update_no_throw. exact Hne.
Qed.

(** ** The direction *)

Lemma update_direction (n : Z) (s s' : State) (rs rs' : list Q) :
  update n s rs = Ok (s', rs') -> direction s' = direction s.
Proof.
  intros H. destruct (isPaused s) eqn:Hp.
  { unfold update in H. rewrite Hp in H. inversion H. reflexivity. }
  destruct (update_inv _ _ _ _ _ Hp H) as (s1 & hit & Hm & Hc & Hrest).
  destruct (moveSnake_inv _ _ _ Hm) as (h & body & Hs & ->).
  destruct hit; [destruct Hrest as [-> _]; reflexivity|].
  destruct Hrest as (eaten & s2 & rs2 & _ & He & Ho).
  assert (E2 : direction s2 = direction s).
  { destruct eaten; [| destruct He as [-> _]; reflexivity].
    apply eatFood_inv in He.
    destruct He as (tl & extra & _ & _ & _ & _ & _ & _ & _ & _ & Ed & _).
    exact Ed. }
  destruct (score s2 >=? 200).
  - apply moveObstacles_frame in Ho. destruct Ho as (o' & -> & _). exact E2.
  - destruct Ho as [-> _]. exact E2.
Qed.

(** X12: in every state of a game the direction is one of the four unit
    vectors or the zero vector of a game that has not moved yet; a tick
    never changes it. *)
Theorem direction_is_fiveWay (n : Z) (s : State) :
  reachable n s ->
  (cardinal (direction s) \/ direction s = Neutral) /\
  (forall rs s' rs', update n s rs = Ok (s', rs') -> direction s' = direction s).
Proof.
  intros (saved & hidden & es & rs & rs' & _ & H).
  split; [| intros ds t ds'; apply update_direction].
  refine (run_preserves n (fun t _ => fiveWay (direction t)) _ es _ rs s rs' _ H);
    [| right; reflexivity].
  intros e t ds t' ds' Ht Hf. destruct e; simpl in Hf.
  - inversion Hf. subst. apply handleKeyPress_fiveWay. exact Ht.
  - unfold startGame in Hf. destruct (gameLoop t).
    + apply resetGame_inv in Hf. destruct Hf as (c & -> & _). right. reflexivity.
    + inversion Hf. subst. exact Ht.
  - inversion Hf. subst. unfold togglePause. destruct (gameLoop t); exact Ht.
  - apply resetGame_inv in Hf. destruct Hf as (c & -> & _). right. reflexivity.
  - destruct (gameLoop t); [| inversion Hf; subst; exact Ht].
    rewrite (update_direction _ _ _ _ _ Hf). exact Ht.
Qed.

(** ** Pause *)

Lemma paused_ticks (n : Z) (k : nat) (s : State) (rs : list Q) :
  isPaused s = true -> run n (repeat Tick k) s rs = Ok (s, rs).
Proof.
  intros Hp. induction k as [|k IH]; [reflexivity|].
  cbn [repeat run fire]. destruct (gameLoop s); cbn [obind].
  - unfold update. rewrite Hp. cbn [obind]. exact IH.
  - exact IH.
Qed.

Lemma run_app (n : Z) (es1 es2 : list Event) (s s1 : State) (rs rs1 : list Q) :
  run n es1 s rs = Ok (s1, rs1) ->
  run n (es1 ++ es2) s rs = run n es2 s1 rs1.
Proof.
  revert s rs. induction es1 as [|e es1 IH]; simpl; intros s rs H.
  - inversion H. reflexivity.
  - destruct (fire n e s rs) as [[s' rs']| |]; simpl in *; try discriminate.
    apply IH. exact H.
Qed.

(** X1: pausing a running game, letting the timer fire any number of times
    and resuming gives back exactly the state and the draws from before the
    pause; a key pressed in between is taken as in a running game. *)
Theorem pause_ticks_resume (n : Z) (k : nat) (s : State) (rs : list Q)
        (key : string) :
  gameLoop s <> None -> isPaused s = false ->
  run n (ClickPause :: repeat Tick k ++ [ClickPause]) s rs = Ok (s, rs) /\
  run n (ClickPause :: repeat Tick k ++ KeyDown key :: repeat Tick k ++ [ClickPause])
      s rs
  = Ok (handleKeyPress key s, rs).
Proof.
  intros Hg Hp.
  destruct (gameLoop s) as [period|] eqn:Hgl; [| congruence].
  assert (Hback : forall t, gameLoop t = Some period -> isPaused t = false ->
                            togglePause (set_isPaused true t) = t).
  { intros t Ht Hpt. unfold togglePause. destruct t. simpl in *. subst.
    reflexivity. }
  assert (Hpause : togglePause s = set_isPaused true s).
  { unfold togglePause. rewrite Hgl, Hp. reflexivity. }
  split.
  - cbn [run fire obind]. rewrite Hpause.
    rewrite (run_app n _ _ _ _ _ _ (paused_ticks n k (set_isPaused true s) rs eq_refl)).
    cbn [run fire obind]. rewrite Hback by assumption. reflexivity.
  - cbn [run fire obind]. rewrite Hpause.
    rewrite (run_app n _ _ _ _ _ _ (paused_ticks n k (set_isPaused true s) rs eq_refl)).
    cbn [run fire obind].
    destruct (handleKeyPress_frame key (set_isPaused true s)) as (d & Ed).
    assert (Ek : handleKeyPress key (set_isPaused true s)
                 = set_isPaused true (handleKeyPress key s)).
    { rewrite !handleKeyPress_as_turn. unfold turn.
      destruct (keyCommand key); [| reflexivity].
      cbn [direction set_isPaused].
      destruct (if x c =? 0 then _ else _); reflexivity. }
    rewrite Ek.
    rewrite (run_app n _ _ _ _ _ _ (paused_ticks n k (set_isPaused true (handleKeyPress key s)) rs eq_refl)).
    cbn [run fire obind]. rewrite Hback; [reflexivity | |].
    + destruct (handleKeyPress_frame key s) as (d' & ->). exact Hgl.
    + destruct (handleKeyPress_frame key s) as (d' & ->). exact Hp.
Qed.

(** ** Game over *)

Lemma stopped_idle (n : Z) (es : list Event) (s : State) (rs : list Q) :
  gameLoop s = None -> Forall idleEvent es -> run n es s rs = Ok (s, rs).
Proof.
  intros Hg Hes. induction Hes as [|e es [-> | ->] _ IH]; [reflexivity | |].
  - cbn [run fire]. rewrite Hg. cbn [obind]. exact IH.
  - cbn [run fire]. unfold togglePause. rewrite Hg. cbn [obind]. exact IH.
Qed.

(** X2: a tick whose move runs into the body or an obstacle draws nothing,
    keeps the score, clears the interval and shows the overlay; from then on
    the timer and the Pause button change nothing, however often they
    fire. *)
Theorem game_over_is_final (n : Z) (s s1 : State) (rs : list Q)
        (es : list Event) :
  isPaused s = false ->
  moveSnake n s = Ok s1 ->
  checkCollision s1 = Ok true ->
  update n s rs = Ok (endGame s1, rs) /\
  score (endGame s1) = score s /\
  gameLoop (endGame s1) = None /\ gameOverHidden (endGame s1) = false /\
  (Forall idleEvent es -> run n es (endGame s1) rs = Ok (endGame s1, rs)).
Proof.
  intros Hp Hm Hc.
  split; [unfold update; rewrite Hp, Hm; cbn [obind]; rewrite Hc; reflexivity|].
  split.
  { destruct (moveSnake_inv _ _ _ Hm) as (h & body & _ & ->). reflexivity. }
  split; [reflexivity|]. split; [reflexivity|].
  apply stopped_idle. reflexivity.
Qed.

(** ** Keys, again *)

(** X11: [handleKeyPress] takes the command of the key when the snake is
    not moving along the axis of the command and leaves the state alone
    otherwise; a key that is not an arrow or one of w, a, s, d changes
    nothing, and before the first move every command is taken. *)
Theorem handleKeyPress_takes_free_turns (key : string) (s : State) :
  handleKeyPress key s = turn key s /\
  (keyCommand key = None -> handleKeyPress key s = s) /\
  (forall d, keyCommand key = Some d -> direction s = Neutral ->
             handleKeyPress key s = set_direction d s).
Proof.
  split; [apply handleKeyPress_as_turn|].
  rewrite handleKeyPress_as_turn. unfold turn. split.
  - intros ->. reflexivity.
  - intros d -> ->. simpl. destruct (x d =? 0); reflexivity.
Qed.

(** ** Restart *)

(** X14: Restart depends on nothing of the state it is pressed in but the
    high score: from two states with the same high score and the same draws
    it gives the same outcome, and when it returns the variables are those
    of a new game with the food off the snake's cell. *)
Theorem resetGame_forgets (n : Z) (s t : State) (rs : list Q) :
  highScore s = highScore t ->
  resetGame n s rs = resetGame n t rs /\
  (forall s' rs',
      resetGame n s rs = Ok (s', rs') ->
      exists c, c <> mkCell 10 10 /\
                s' = mkState [mkCell 10 10] (mkCell 0 0) c [] 0 (highScore s)
                             (Some 150) false 150 true).
Proof.
  intros Hhs. split.
  - destruct s, t. simpl in Hhs. subst. unfold resetGame, spawnFood, foodValid.
    cbn [snake obstacles set_snake set_direction set_score set_obstacles
         set_gameSpeed set_gameOverHidden set_food set_gameLoop set_isPaused
         direction food score highScore gameLoop isPaused gameSpeed
         gameOverHidden].
    destruct (rejectionLoop n _ rs) as [[c rest]| |]; reflexivity.
  - intros s' rs' H. apply resetGame_inv in H. destruct H as (c & -> & Hc).
    exists c. auto.
Qed.

(** ** The spawner loop *)

Lemma rejectionLoop_Stuck (n : Z) (valid : Cell -> bool) (rs : list Q) :
  rejectionLoop n valid rs = Stuck <-> rejectedAll n valid rs = true.
Proof.
  induction rs as [| r | r1 r2 rs IH] using pairs_ind;
    cbn [rejectionLoop rejectedAll]; try tauto.
  destruct (valid (drawnCell n r1 r2)); simpl; [| exact IH].
  split; discriminate.
Qed.

Lemma rejectionLoop_first (n : Z) (valid : Cell -> bool) (rs : list Q)
      (c : Cell) (rest : list Q) :
  rejectionLoop n valid rs = Ok (c, rest) <->
  exists pre r1 r2,
    rs = pre ++ r1 :: r2 :: rest /\ Nat.Even (length pre) /\
    rejectedAll n valid pre = true /\
    c = drawnCell n r1 r2 /\ valid c = true.
Proof.
  split.
  - induction rs as [| r | r1 r2 rs IH] using pairs_ind;
      cbn [rejectionLoop]; try discriminate.
    destruct (valid (drawnCell n r1 r2)) eqn:E.
    + intros H. inversion H. subst. exists [], r1, r2.
      repeat split; auto. exists 0%nat. reflexivity.
    + intros H. destruct (IH H) as (pre & a & b & -> & [k Hk] & Hrej & -> & Hv).
      exists (r1 :: r2 :: pre), a, b. repeat split; auto.
      * exists (S k). simpl. lia.
      * cbn [rejectedAll]. rewrite E. exact Hrej.
  - intros (pre & r1 & r2 & -> & Hev & Hrej & -> & Hv).
    induction pre as [| r | a b pre IH] using pairs_ind.
    + cbn [app rejectionLoop]. rewrite Hv. reflexivity.
    + exfalso. destruct Hev as [k Hk]. simpl in Hk. lia.
    + cbn [rejectedAll] in Hrej. apply andb_true_iff in Hrej.
      destruct Hrej as [Ha Hrej]. apply negb_true_iff in Ha.
      cbn [app rejectionLoop]. rewrite Ha. apply IH; [| exact Hrej].
      destruct Hev as [k Hk]. exists (k - 1)%nat. simpl in Hk. lia.
Qed.

(** X15: a spawner reads the draws two at a time and takes the first pair
    whose cell passes its test, leaving the draws after it untouched; it is
    still looking exactly when every pair so far has been rejected. *)
Theorem spawner_takes_first_free (n : Z) (s : State) (rs : list Q) :
  (forall s' rs',
      spawnFood n s rs = Ok (s', rs') <->
      exists pre r1 r2,
        rs = pre ++ r1 :: r2 :: rs' /\ Nat.Even (length pre) /\
        rejectedAll n (foodValid s) pre = true /\
        foodValid s (drawnCell n r1 r2) = true /\
        s' = set_food (drawnCell n r1 r2) s) /\
  (forall s' rs',
      spawnObstacle n s rs = Ok (s', rs') <->
      exists pre r1 r2,
        rs = pre ++ r1 :: r2 :: rs' /\ Nat.Even (length pre) /\
        rejectedAll n (obstacleValid s) pre = true /\
        obstacleValid s (drawnCell n r1 r2) = true /\
        s' = set_obstacles (obstacles s ++ [drawnCell n r1 r2]) s) /\
  (spawnFood n s rs = Stuck <-> rejectedAll n (foodValid s) rs = true) /\
  (spawnObstacle n s rs = Stuck <-> rejectedAll n (obstacleValid s) rs = true).
Proof.
  split; [| split; [| split]].
  - intros s' rs'. unfold spawnFood. split.
    + intros H. apply obind_Ok in H. destruct H as ([c rest] & Hl & H).
      inversion H. subst.
      apply rejectionLoop_first in Hl.
      destruct Hl as (pre & r1 & r2 & E & Hev & Hrej & -> & Hv).
      exists pre, r1, r2. auto.
    + intros (pre & r1 & r2 & E & Hev & Hrej & Hv & ->).
      assert (Hl : rejectionLoop n (foodValid s) rs
                   = Ok (drawnCell n r1 r2, rs')).
      { apply rejectionLoop_first. exists pre, r1, r2. auto. }
      rewrite Hl. reflexivity.
  - intros s' rs'. unfold spawnObstacle. split.
    + intros H. apply obind_Ok in H. destruct H as ([c rest] & Hl & H).
      inversion H. subst.
      apply rejectionLoop_first in Hl.
      destruct Hl as (pre & r1 & r2 & E & Hev & Hrej & -> & Hv).
      exists pre, r1, r2. auto.
    + intros (pre & r1 & r2 & E & Hev & Hrej & Hv & ->).
      assert (Hl : rejectionLoop n (obstacleValid s) rs
                   = Ok (drawnCell n r1 r2, rs')).
      { apply rejectionLoop_first. exists pre, r1, r2. auto. }
      rewrite Hl. reflexivity.
  - rewrite <- rejectionLoop_Stuck. unfold spawnFood.
    destruct (rejectionLoop n (foodValid s) rs) as [[c rest]| |]; simpl;
      split; intros H; try discriminate; reflexivity.
  - rewrite <- rejectionLoop_Stuck. unfold spawnObstacle.
    destruct (rejectionLoop n (obstacleValid s) rs) as [[c rest]| |]; simpl;
      split; intros H; try discriminate; reflexivity.
Qed.

(** X16: on a grid with no free cell left the spawners never return: with
    every cell of the grid on the snake or an obstacle, [spawnFood] is still
    looking after any number of draws, and so is [spawnObstacle] when every
    cell is on the snake, the food or an obstacle. *)
Theorem spawners_stuck_on_full_grid (n : Z) (s : State) (rs : list Q) :
  0 < n -> Forall unitDraw rs ->
  ((forall c, inGrid n c -> c ∈ snake s \/ c ∈ obstacles s) ->
   spawnFood n s rs = Stuck) /\
  ((forall c, inGrid n c -> c ∈ snake s \/ c = food s \/ c ∈ obstacles s) ->
   spawnObstacle n s rs = Stuck).
Proof.
  intros Hn Hu. split; intros Hfull.
  - unfold spawnFood.
    destruct (rejectionLoop n (foodValid s) rs) as [[c rest]| |] eqn:E;
      [| reflexivity | exfalso; exact (rejectionLoop_no_throw _ _ _ E)].
    exfalso.
    pose proof (rejectionLoop_tidy n Hn _ _ _ _ Hu E) as [Hc _].
    apply rejectionLoop_inv in E. apply foodValid_free in E.
    destruct (Hfull c Hc); tauto.
  - unfold spawnObstacle.
    destruct (rejectionLoop n (obstacleValid s) rs) as [[c rest]| |] eqn:E;
      [| reflexivity | exfalso; exact (rejectionLoop_no_throw _ _ _ E)].
    exfalso.
    pose proof (rejectionLoop_tidy n Hn _ _ _ _ Hu E) as [Hc _].
    apply rejectionLoop_inv in E. apply obstacleValid_free in E.
    destruct E as (E1 & E2 & E3).
    destruct (Hfull c Hc) as [K | [K | K]]; auto.
Qed.

(** ** Going round the grid *)

Lemma wrap_add_mod (n : Z) (a d : Z) :
  0 < n -> -1 <= d <= 1 -> wrap n (a mod n + d) = (a + d) mod n.
Proof.
  intros Hn Hd.
  rewrite (wrap_mod n Hn) by (auto using Z.mod_pos_bound).
  rewrite <- Z.add_assoc, Zplus_mod_idemp_l, Z.add_assoc.
  replace (a + d + n) with (a + d + 1 * n) by lia.
  apply Z_mod_plus_full.
Qed.

Lemma moves_S (n : Z) (k : nat) (s : State) :
  moves n (S k) s = obind (moves n k s) (moveSnake n).
Proof. reflexivity. Qed.

(** X17: [k] moves in a row take the head [k] steps along the direction,
    modulo the size of the grid, and keep the length of the snake: after
    [tileCount] moves the head is back on the cell it started from. *)
Theorem moves_go_round (n : Z) (k : nat) (s : State) (c : Cell)
        (body : list Cell) :
  0 < n -> snake s = c :: body -> inGrid n c ->
  cardinal (direction s) \/ direction s = Neutral ->
  exists s' body',
    moves n k s = Ok s' /\
    snake s' = mkCell ((x c + Z.of_nat k * x (direction s)) mod n)
                      ((y c + Z.of_nat k * y (direction s)) mod n) :: body' /\
    length (snake s') = length (snake s) /\
    direction s' = direction s /\
    (Z.of_nat k = n -> snake s' = c :: body').
Proof.
  intros Hn Hs [Hx Hy] Hd.
  assert (Hdx : -1 <= x (direction s) <= 1 /\ -1 <= y (direction s) <= 1).
  { destruct Hd as [[E|[E|[E|E]]]|E]; rewrite E; simpl; lia. }
  destruct Hdx as [Hdx Hdy].
  assert (Main : exists s' body',
             moves n k s = Ok s' /\
             snake s' = mkCell ((x c + Z.of_nat k * x (direction s)) mod n)
                               ((y c + Z.of_nat k * y (direction s)) mod n)
                        :: body' /\
             length (snake s') = length (snake s) /\
             direction s' = direction s).
  { induction k as [|k (sk & bk & Hm & Hsk & Hlen & Hdir)].
    - exists s, body. split; [reflexivity|].
      split; [| auto].
      rewrite Hs. simpl. rewrite !Z.add_0_r, !Z.mod_small by assumption.
      rewrite cell_eta. reflexivity.
    - rewrite moves_S, Hm. cbn [obind].
      unfold moveSnake. rewrite Hsk. cbn [x y]. rewrite Hdir.
      rewrite !wrap_add_mod by assumption.
      eexists _, (removelast (_ :: bk)). split; [reflexivity|].
      cbn [snake set_snake direction set_direction].
      split; [| split; [| exact Hdir]].
      + rewrite removelast_cons by discriminate. f_equal. f_equal; f_equal; lia.
      + rewrite <- Hlen, Hsk. rewrite removelast_cons by discriminate.
        cbn [length]. rewrite length_removelast_cons. reflexivity. }
  destruct Main as (s' & body' & Hm & Hs' & Hlen & Hdir).
  exists s', body'. repeat split; auto.
  intros Hk. rewrite Hs', Hk. f_equal.
  rewrite !(Z.mul_comm n), !Z_mod_plus_full, !Z.mod_small by assumption.
  apply cell_eta.
Qed.

(** ** The cell the tail leaves *)

(** X18: the collision test after a move looks at the new head against the
    segments that are left once the tail is popped, and the obstacles: the
    head may enter the cell the tail leaves on the same tick (and a snake of
    one segment that stands still does not hit itself). *)
Theorem head_may_follow_tail (n : Z) (s s1 : State) (front : list Cell)
        (t : Cell) :
  moveSnake n s = Ok s1 ->
  snake s = front ++ [t] ->
  exists head',
    snake s1 = head' :: front /\
    checkCollision s1
    = Ok (bool_decide (head' ∈ front \/ head' ∈ obstacles s)) /\
    (head' = t -> t ∉ front -> t ∉ obstacles s ->
     checkCollision s1 = Ok false).
Proof.
  intros Hm Hs.
  destruct (moveSnake_inv _ _ _ Hm) as (h & body & _ & ->).
  rewrite Hs, removelast_last.
  eexists. split; [reflexivity|].
  assert (Hcol : forall hd,
             checkCollision (set_snake (hd :: front) s)
             = Ok (bool_decide (hd ∈ front \/ hd ∈ obstacles s))).
  { intros hd. unfold checkCollision. cbn [snake set_snake obstacles]. f_equal.
    destruct (existsb _ front) eqn:A; destruct (existsb _ (obstacles s)) eqn:B;
      simpl; symmetry;
      rewrite ?bool_decide_eq_true, ?bool_decide_eq_false;
      try (apply headAt_true in A); try (apply headAt_true in B); auto.
    intros [K|K]; apply headAt_true in K; congruence. }
  split; [apply Hcol|].
  intros E Hf Ho. rewrite Hcol. f_equal.
  apply bool_decide_eq_false. rewrite E. tauto.
Qed.

(** ** The further properties on concrete games *)

Lemma fiveMeals_reachable : reachable 20 fiveMeals.
Proof.
  exists 0, true,
    [ClickRestart; KeyDown "ArrowRight"; Tick; Tick; Tick; Tick; Tick],
    [tile 11; tile 10; tile 12; tile 10; tile 13; tile 10; tile 14; tile 10;
     tile 15; tile 10; tile 0; tile 0; tile 1; tile 0], [].
  split; [unit_draws | reflexivity].
Qed.

Lemma pause_ticks_resume_witness :
  gameLoop rolling <> None /\ isPaused rolling = false /\
  run 20 (ClickPause :: repeat Tick 3 ++ [ClickPause]) rolling [] = Ok (rolling, []).
Proof.
  assert (G : gameLoop rolling <> None) by discriminate.
  split; [exact G|]. split; [reflexivity|].
  exact (proj1 (pause_ticks_resume 20 3 rolling [] "w" G eq_refl)).
Defined.

Lemma game_over_is_final_witness :
  isPaused doomed = false /\
  moveSnake 20 doomed
  = Ok (set_snake [mkCell 12 10; mkCell 13 10; mkCell 12 10] doomed) /\
  update 20 doomed [] = Ok (gameOver, []) /\
  run 20 [Tick; ClickPause; Tick] gameOver [] = Ok (gameOver, []).
Proof.
  split; [reflexivity|]. split; [reflexivity|].
  destruct (game_over_is_final 20 doomed
              (set_snake [mkCell 12 10; mkCell 13 10; mkCell 12 10] doomed) []
              [Tick; ClickPause; Tick] eq_refl eq_refl eq_refl)
    as (U & _ & _ & _ & R).
  split; [exact U|].
  apply R. constructor; [left; reflexivity|].
  constructor; [right; reflexivity|].
  constructor; [left; reflexivity | constructor].
Defined.

Lemma highScore_never_behind_witness :
  0 <= 0 /\
  run 20 gameOverEvents (initialState 0 true) gameOverDraws = Ok (gameOver, []) /\
  0 <= highScore gameOver /\ score gameOver <= highScore gameOver.
Proof.
  assert (P : 0 <= 0) by lia.
  split; [exact P|]. split; [reflexivity|].
  exact (proj1 (highScore_never_behind 20 0 true gameOverEvents Tick gameOver
                  gameOver gameOverDraws [] [] P eq_refl)).
Defined.

Lemma score_counts_segments_witness :
  score fiveMeals = 10 * (Z.of_nat (length (snake fiveMeals)) - 1).
Proof. exact (score_counts_segments 20 fiveMeals fiveMeals_reachable). Defined.

Lemma obstacles_count_fifties_witness :
  Z.of_nat (length (obstacles fiveMeals)) = score fiveMeals / 50.
Proof. exact (obstacles_count_fifties 20 fiveMeals fiveMeals_reachable). Defined.

Lemma timer_follows_gameSpeed_witness :
  50 <= gameSpeed fiveMeals <= 250 /\
  forall period, gameLoop fiveMeals = Some period ->
                 period = gameSpeed fiveMeals /\ period <= 150.
Proof. exact (timer_follows_gameSpeed 20 fiveMeals fiveMeals_reachable). Defined.

Lemma stopped_is_unpaused_witness :
  gameLoop gameOver = None /\ isPaused gameOver = false.
Proof.
  split; [reflexivity|].
  exact (stopped_is_unpaused 20 gameOver gameOver_reachable eq_refl).
Defined.

Lemma cells_stay_on_grid_witness :
  15 < 20 /\
  Forall (inGrid 20) (snake fiveMeals) /\ inGrid 20 (food fiveMeals) /\
  Forall (inGrid 20) (obstacles fiveMeals).
Proof.
  assert (P : 15 < 20) by lia.
  split; [exact P|].
  exact (cells_stay_on_grid 20 fiveMeals P fiveMeals_reachable).
Defined.

Lemma food_on_free_cell_witness :
  (food fiveMeals ∉ snake fiveMeals) /\ (food fiveMeals ∉ obstacles fiveMeals).
Proof. exact (food_on_free_cell 20 fiveMeals fiveMeals_reachable). Defined.

Lemma direction_is_fiveWay_witness :
  cardinal (direction gameOver) \/ direction gameOver = Neutral.
Proof. exact (proj1 (direction_is_fiveWay 20 gameOver gameOver_reachable)). Defined.

Lemma no_TypeError_in_a_game_witness :
  fire 20 Tick fiveMeals [] <> Throw.
Proof. exact (no_TypeError_in_a_game 20 fiveMeals Tick [] fiveMeals_reachable). Defined.

Lemma resetGame_forgets_witness :
  highScore gameOver = highScore doomed /\
  resetGame 20 gameOver [tile 3; tile 4] = resetGame 20 doomed [tile 3; tile 4].
Proof.
  split; [reflexivity|].
  exact (proj1 (resetGame_forgets 20 gameOver doomed [tile 3; tile 4] eq_refl)).
Defined.

Lemma spawners_stuck_on_full_grid_witness :
  0 < 1 /\ Forall unitDraw [tile 0; tile 10; tile 19; tile 5] /\
  (forall c, inGrid 1 c -> c ∈ snake fullTiny \/ c ∈ obstacles fullTiny) /\
  spawnFood 1 fullTiny [tile 0; tile 10; tile 19; tile 5] = Stuck.
Proof.
  assert (P : 0 < 1) by lia.
  assert (U : Forall unitDraw [tile 0; tile 10; tile 19; tile 5]) by unit_draws.
  assert (F : forall c, inGrid 1 c -> c ∈ snake fullTiny \/ c ∈ obstacles fullTiny).
  { intros [cx cy] [Hx Hy]. simpl in Hx, Hy. left.
    assert (cx = 0) as -> by lia. assert (cy = 0) as -> by lia.
    apply list_elem_of_singleton. reflexivity. }
  split; [exact P|]. split; [exact U|]. split; [exact F|].
  exact (proj1 (spawners_stuck_on_full_grid 1 fullTiny _ P U) F).
Defined.

Lemma moves_go_round_witness :
  0 < 20 /\ snake leftEdge = mkCell 0 7 :: [mkCell 1 7] /\
  inGrid 20 (mkCell 0 7) /\
  exists s' body', moves 20 20 leftEdge = Ok s' /\ snake s' = mkCell 0 7 :: body'.
Proof.
  assert (P : 0 < 20) by lia.
  assert (G : inGrid 20 (mkCell 0 7)) by (split; simpl; lia).
  split; [exact P|]. split; [reflexivity|]. split; [exact G|].
  destruct (moves_go_round 20 20 leftEdge (mkCell 0 7) [mkCell 1 7] P eq_refl G)
    as (s' & body' & Hm & _ & _ & _ & Hback).
  { left. right. right. left. reflexivity. }
  exists s', body'. split; [exact Hm | apply Hback; reflexivity].
Defined.

Lemma head_may_follow_tail_witness :
  moveSnake 20 fullTiny = Ok (set_snake [mkCell 0 0] fullTiny) /\
  snake fullTiny = [] ++ [mkCell 0 0] /\
  checkCollision (set_snake [mkCell 0 0] fullTiny) = Ok false.
Proof.
  split; [reflexivity|]. split; [reflexivity|].
  destruct (head_may_follow_tail 20 fullTiny (set_snake [mkCell 0 0] fullTiny)
              [] (mkCell 0 0) eq_refl eq_refl) as (head' & E & _ & H).
  apply H.
  - simpl in E. congruence.
  - apply not_elem_of_nil.
  - apply not_elem_of_nil.
Defined.

(** ** Obstacles and the snake *)

Lemma forEachSlot_clearOfSnake (n : Z) (slots : list nat) (s s' : State)
      (rs rs' : list Q) :
  forEachSlot n slots s rs = Ok (s', rs') -> clearOfSnake s -> clearOfSnake s'.
Proof.
  revert s rs. induction slots as [|i slots IH]; intros s rs H Hc; simpl in H.
  - inversion H. subst. exact Hc.
  - apply obind_Ok in H. destruct H as ([s1 rs1] & Hstep & H).
    apply (IH _ _ H). apply moveObstacle_inv in Hstep.
    destruct Hstep as [-> | (o & r & Ho & Hv & ->)]; [exact Hc|].
    apply moveValid_free in Hv. destruct Hv as (Hsn & _ & _).
    unfold clearOfSnake. simpl. apply Forall_insert; assumption.
Qed.

(** X20: as long as the game-over overlay is hidden, no obstacle is on a
    segment of the snake: obstacles are spawned and moved onto cells off the
    snake, and a head that enters an obstacle's cell ends the game. *)
Theorem obstacles_off_the_snake (n : Z) (s : State) (o : Cell) :
  reachable n s -> gameOverHidden s = true -> o ∈ obstacles s -> o ∉ snake s.
Proof.
  intros (saved & hidden & es & rs & rs' & _ & H) Hov Ho.
  assert (C : gameOverHidden s = true -> clearOfSnake s).
  { refine (run_preserves n (fun t _ => gameOverHidden t = true -> clearOfSnake t)
              _ es _ rs s rs' _ H); [| intros _; constructor].
    apply (fire_preserves n (fun t _ => gameOverHidden t = true -> clearOfSnake t)).
    - intros t ds d Ht. exact Ht.
    - intros t ds Ht _. exact Ht.
    - intros t ds Ht _. exact Ht.
    - intros t ds t' ds' _ Hr _. apply resetGame_inv in Hr.
      destruct Hr as (c & -> & _). constructor.
    - intros t ds t' ds' Ht _ Hp Hu Hov'.
      destruct (update_inv _ _ _ _ _ Hp Hu) as (s1 & hit & Hm & Hc & Hrest).
      destruct (moveSnake_inv _ _ _ Hm) as (h & body & Hs & E1).
      destruct hit; [destruct Hrest as [-> _]; discriminate Hov'|].
      destruct Hrest as (eaten & s2 & rs2 & _ & He & Hmv).
      assert (O2 : gameOverHidden t' = gameOverHidden s2).
      { destruct (score s2 >=? 200).
        - apply moveObstacles_frame in Hmv. destruct Hmv as (o' & -> & _).
          reflexivity.
        - destruct Hmv as [-> _]. reflexivity. }
      assert (O1 : gameOverHidden s2 = gameOverHidden t).
      { destruct eaten.
        - apply eatFood_meta in He. destruct He as (_ & _ & ->).
          rewrite E1. reflexivity.
        - destruct He as [-> _]. rewrite E1. reflexivity. }
      assert (C0 : clearOfSnake t) by (apply Ht; congruence).
      assert (C1 : clearOfSnake s1).
      { rewrite E1 in Hc |- *. unfold checkCollision in Hc. simpl in Hc.
        inversion Hc as [Hc']. apply orb_false_iff in Hc'.
        destruct Hc' as [_ Hobs].
        unfold clearOfSnake in *. simpl.
        rewrite Forall_forall in C0 |- *. intros c Hin Hc1.
        apply elem_of_cons in Hc1. destruct Hc1 as [-> | Hc1].
        - apply not_true_iff_false in Hobs. apply Hobs, headAt_true, Hin.
        - apply (C0 c Hin), elem_of_removelast, Hc1. }
      assert (C2 : clearOfSnake s2).
      { destruct eaten; [| destruct He as [-> _]; exact C1].
        apply eatFood_inv in He.
        destruct He as (tl & extra & Hl & Esn & _ & _ & Eob & Hex & _).
        unfold clearOfSnake in *. rewrite Esn, Eob.
        apply last_Some_elem_of in Hl.
        apply Forall_app. split.
        - rewrite Forall_forall in C1 |- *. intros c Hin Hc1.
          apply elem_of_app in Hc1. destruct Hc1 as [Hc1 | Hc1].
          + apply (C1 c Hin Hc1).
          + apply list_elem_of_singleton in Hc1. subst. apply (C1 tl Hin Hl).
        - destruct (obstacleDue _).
          + destruct Hex as (c & -> & Hc1 & _). constructor; [exact Hc1 | constructor].
          + rewrite Hex. constructor. }
      destruct (score s2 >=? 200).
      + eapply forEachSlot_clearOfSnake; [exact Hmv | exact C2].
      + destruct Hmv as [-> _]. exact C2. }
  specialize (C Hov). unfold clearOfSnake in C.
  rewrite Forall_forall in C. apply C, Ho.
Qed.

(** X19: a tick never removes an obstacle, and a tick that ends with the
    score below 200 leaves every obstacle on its cell: the obstacles after
    it are those before it, with at most one appended. *)
Theorem tick_keeps_obstacles (n : Z) (s s' : State) (rs rs' : list Q) :
  update n s rs = Ok (s', rs') ->
  (length (obstacles s) <= length (obstacles s'))%nat /\
  (score s' < 200 ->
   exists extra, obstacles s' = obstacles s ++ extra /\ (length extra <= 1)%nat).
Proof.
  intros H. destruct (isPaused s) eqn:Hp.
  { unfold update in H. rewrite Hp in H. inversion H. subst.
    split; [lia|]. intros _. exists []. rewrite app_nil_r. auto. }
  destruct (update_inv _ _ _ _ _ Hp H) as (s1 & hit & Hm & Hc & Hrest).
  destruct (moveSnake_inv _ _ _ Hm) as (h & body & Hs & E1).
  destruct hit.
  { destruct Hrest as [-> _]. rewrite E1. simpl.
    split; [lia|]. intros _. exists []. rewrite app_nil_r. auto. }
  destruct Hrest as (eaten & s2 & rs2 & _ & He & Hmv).
  assert (A : exists extra, obstacles s2 = obstacles s ++ extra /\
                            (length extra <= 1)%nat).
  { destruct eaten.
    - apply eatFood_inv in He.
      destruct He as (tl & extra & _ & _ & _ & _ & Eob & Hex & _).
      exists extra. rewrite Eob, E1. split; [reflexivity|].
      destruct (obstacleDue _).
      + destruct Hex as (c & -> & _). simpl. lia.
      + rewrite Hex. simpl. lia.
    - destruct He as [-> _]. rewrite E1. exists []. rewrite app_nil_r. auto. }
  destruct A as (extra & Eob & Hlen).
  destruct (Z.geb_spec (score s2) 200).
  - apply moveObstacles_frame in Hmv. destruct Hmv as (o' & -> & L).
    simpl. split; [rewrite L, Eob, length_app; lia | lia].
  - destruct Hmv as [-> _]. split; [rewrite Eob, length_app; lia|].
    intros _. exists extra. auto.
Qed.

Lemma obstacles_off_the_snake_witness :
  gameOverHidden fiveMeals = true /\ (mkCell 0 0 ∈ obstacles fiveMeals) /\
  (mkCell 0 0 ∉ snake fiveMeals).
Proof.
  assert (I : mkCell 0 0 ∈ obstacles fiveMeals)
    by (apply list_elem_of_singleton; reflexivity).
  split; [reflexivity|]. split; [exact I|].
  exact (obstacles_off_the_snake 20 fiveMeals (mkCell 0 0) fiveMeals_reachable
           eq_refl I).
Defined.

(** ** More draws at the end change nothing *)

Lemma rejectionLoop_app (n : Z) (valid : Cell -> bool) (rs post : list Q)
      (c : Cell) (rest : list Q) :
  rejectionLoop n valid rs = Ok (c, rest) ->
  rejectionLoop n valid (rs ++ post) = Ok (c, rest ++ post).
Proof.
  induction rs as [| r | r1 r2 rs IH] using pairs_ind;
    cbn [rejectionLoop app]; try discriminate.
  destruct (valid (drawnCell n r1 r2)).
  - intros H. inversion H. reflexivity.
  - exact IH.
Qed.

Lemma spawnFood_app (n : Z) (s s' : State) (rs rs' post : list Q) :
  spawnFood n s rs = Ok (s', rs') ->
  spawnFood n s (rs ++ post) = Ok (s', rs' ++ post).
Proof.
  unfold spawnFood. intros H.
  apply obind_Ok in H. destruct H as ([c rest] & Hl & H).
  rewrite (rejectionLoop_app _ _ _ post _ _ Hl). cbn [obind].
  inversion H. reflexivity.
Qed.

Lemma spawnObstacle_app (n : Z) (s s' : State) (rs rs' post : list Q) :
  spawnObstacle n s rs = Ok (s', rs') ->
  spawnObstacle n s (rs ++ post) = Ok (s', rs' ++ post).
Proof.
  unfold spawnObstacle. intros H.
  apply obind_Ok in H. destruct H as ([c rest] & Hl & H).
  rewrite (rejectionLoop_app _ _ _ post _ _ Hl). cbn [obind].
  inversion H. reflexivity.
Qed.

Lemma eatFood_app (n : Z) (s s' : State) (rs rs' post : list Q) :
  eatFood n s rs = Ok (s', rs') ->
  eatFood n s (rs ++ post) = Ok (s', rs' ++ post).
Proof.
  unfold eatFood.
  set (s1 := set_score (score s + 10) s).
  set (s2 := if score s1 >? highScore s1 then set_highScore (score s1) s1 else s1).
  clearbody s2. clear s1.
  destruct (last (snake s2)) as [tl|]; [| discriminate].
  intros H. apply obind_Ok in H. destruct H as ([s4 rs4] & Ho & H).
  destruct (_ && _).
  - rewrite (spawnObstacle_app _ _ _ _ _ post Ho). cbn [obind].
    apply spawnFood_app. exact H.
  - inversion Ho. subst. cbn [obind]. apply spawnFood_app. exact H.
Qed.

(** ** Growth *)

(** C2 (amended): on a tick on which the food is eaten the snake gets one
    segment longer, and its new last segment repeats the cell of the last
    segment after the move: the cell of the segment that preceded the old
    tail, or the new head when the snake had one segment.  The tick does
    return when the draws hold two different free cells and, from score
    200, eleven more draws for each obstacle. *)
Theorem growth_after_eating (n : Z) (s s1 : State) (rs : list Q) :
  isPaused s = false ->
  moveSnake n s = Ok s1 ->
  checkCollision s1 = Ok false ->
  checkFoodCollision s1 = Ok true ->
  (forall s' rs',
      update n s rs = Ok (s', rs') ->
      exists head' tail',
        snake s1 = head' :: removelast (snake s) /\
        last (snake s1) = Some tail' /\
        snake s' = snake s1 ++ [tail'] /\
        length (snake s') = S (length (snake s)) /\
        last (snake s') = Some tail' /\
        (forall front p q, snake s = front ++ [p; q] -> tail' = p) /\
        (forall q, snake s = [q] -> tail' = head')) /\
  (forall pre a1 a2 mid b1 b2 post,
      rs = pre ++ a1 :: a2 :: mid ++ b1 :: b2 :: post ->
      Nat.Even (length pre) -> Nat.Even (length mid) ->
      drawnCell n a1 a2 <> drawnCell n b1 b2 ->
      obstacleValid s1 (drawnCell n a1 a2) = true ->
      obstacleValid s1 (drawnCell n b1 b2) = true ->
      score s + 10 < 200 \/
      (11 * (length (obstacles s) + 1) <= length post)%nat ->
      exists s' rs', update n s rs = Ok (s', rs')).
Proof.
  intros Hp Hm Hc Hf. split.
  - intros s' rs' Hu.
    destruct (update_inv _ _ _ _ _ Hp Hu) as (s1' & hit & Hm' & Hc' & Hrest).
    rewrite Hm in Hm'. inversion Hm'. subst s1'.
    rewrite Hc in Hc'. inversion Hc'. subst hit.
    destruct Hrest as (eaten & s2 & rs2 & Hf' & He & Ho).
    rewrite Hf in Hf'. inversion Hf'. subst eaten.
    apply eatFood_inv in He.
    destruct He as (tail' & extra & Hl & Hsn & _).
    assert (Hs' : snake s' = snake s2).
    { destruct (score s2 >=? 200).
      - apply moveObstacles_frame in Ho. destruct Ho as (o' & -> & _). reflexivity.
      - destruct Ho as [-> _]. reflexivity. }
    destruct (moveSnake_inv _ _ _ Hm) as (h & body & Hs & ->).
    set (head' := mkCell (wrap n (x h + x (direction s)))
                         (wrap n (y h + y (direction s)))) in *.
    cbn [snake set_snake] in Hl, Hsn.
    exists head', tail'.
    split; [reflexivity|]. split; [exact Hl|].
    split; [rewrite Hs'; exact Hsn|].
    split.
    { rewrite Hs', Hsn, length_app. cbn [length].
      rewrite Hs, length_removelast_cons. cbn [length]. lia. }
    split.
    { rewrite Hs', Hsn. apply last_snoc. }
    split.
    + intros front p q E. rewrite E in Hl.
      rewrite removelast_app in Hl by discriminate.
      change (removelast [p; q]) with [p] in Hl.
      rewrite app_comm_cons, last_snoc in Hl. congruence.
    + intros q E. rewrite E in Hl. cbn in Hl. congruence.
  - intros pre a1 a2 mid b1 b2 post -> Hpre Hmid Hab Ha Hb Hdraws.
    assert (Hne : snake s1 <> []).
    { destruct (moveSnake_inv _ _ _ Hm) as (h & body & _ & ->). discriminate. }
    destruct (eatFood_returns n s1 pre a1 a2 mid b1 b2 [] Hne Hpre Hmid Hab Ha Hb)
      as (s2 & rs2 & He).
    apply (eatFood_app _ _ _ _ _ post) in He.
    replace ((pre ++ a1 :: a2 :: mid ++ [b1; b2]) ++ post)
      with (pre ++ a1 :: a2 :: mid ++ b1 :: b2 :: post) in He
      by (rewrite <- !app_assoc; cbn [app]; rewrite <- app_assoc; reflexivity).
    unfold update. rewrite Hp, Hm. cbn [obind]. rewrite Hc. cbn [obind].
    rewrite Hf. cbn [obind]. rewrite He. cbn [obind].
    destruct (Z.geb_spec (score s2) 200) as [Hbig | Hsmall]; [| eauto].
    pose proof He as Hinv. apply eatFood_inv in Hinv.
    destruct Hinv as (tl & extra & _ & _ & Esc & _ & Eob & Hex & _).
    assert (E1 : score s1 = score s /\ obstacles s1 = obstacles s).
    { destruct (moveSnake_inv _ _ _ Hm) as (h & body & _ & ->). auto. }
    destruct E1 as [E1 E1'].
    assert (Hx : (length extra <= 1)%nat).
    { destruct (obstacleDue _).
      - destruct Hex as (c & -> & _). simpl. lia.
      - rewrite Hex. simpl. lia. }
    destruct Hdraws as [Hlow | Hpost]; [lia|].
    unfold moveObstacles. apply forEachSlot_total.
    rewrite length_seq, Eob, E1', !length_app. lia.
Qed.

(** ** Distinct segments in a game *)

Lemma update_tailRepeats (n : Z) (s s' : State) (rs rs' : list Q) :
  tailRepeats s -> isPaused s = false ->
  update n s rs = Ok (s', rs') ->
  gameOverHidden s' = true -> tailRepeats s'.
Proof.
  intros [Hnd _] Hp Hu Hov.
  destruct (update_inv _ _ _ _ _ Hp Hu) as (s1 & hit & Hm & Hc & Hrest).
  destruct hit; [destruct Hrest as [-> _]; discriminate Hov|].
  destruct Hrest as (eaten & s2 & rs2 & _ & He & Ho).
  assert (Hs' : snake s' = snake s2).
  { destruct (score s2 >=? 200).
    - apply moveObstacles_frame in Ho. destruct Ho as (o' & -> & _). reflexivity.
    - destruct Ho as [-> _]. reflexivity. }
  assert (Hnd1 : NoDup (snake s1)).
  { destruct (moveSnake_inv _ _ _ Hm) as (h & body & Hs & ->).
    unfold checkCollision in Hc. simpl in Hc. inversion Hc as [Hc'].
    apply orb_false_iff in Hc'. destruct Hc' as [Hc' _].
    simpl. apply NoDup_cons. split; [| exact Hnd].
    rewrite <- headAt_true. rewrite Hc'. discriminate. }
  unfold tailRepeats. rewrite Hs'. destruct eaten.
  - apply eatFood_inv in He. destruct He as (tl & extra & Hl & Hsn & _).
    rewrite Hsn, removelast_last. split; [exact Hnd1|].
    right. apply last_Some in Hl. destruct Hl as (front & ->).
    exists front, tl. rewrite <- app_assoc. reflexivity.
  - destruct He as [-> _]. split; [apply NoDup_removelast; exact Hnd1|].
    left. exact Hnd1.
Qed.

(** C3 (amended): in every state of a game in which the game-over overlay
    is hidden, the segments of the snake other than the last one are
    pairwise distinct, and the snake as a whole has pairwise distinct
    segments or ends with two segments on one cell (the tail a meal has
    just repeated). *)
Theorem snake_body_distinct (n : Z) (s : State) :
  reachable n s -> gameOverHidden s = true ->
  NoDup (removelast (snake s)) /\
  (NoDup (snake s) \/ exists front t, snake s = front ++ [t; t]).
Proof.
  intros (saved & hidden & es & rs & rs' & _ & H).
  assert (One : tailRepeats (set_snake [mkCell 10 10] s)).
  { split; [constructor | left; apply NoDup_singleton]. }
  refine (run_preserves n
            (fun t _ => gameOverHidden t = true -> tailRepeats t)
            _ es _ rs s rs' _ H).
  - apply (fire_preserves n
             (fun t _ => gameOverHidden t = true -> tailRepeats t)).
    + intros t ds d Ht. exact Ht.
    + intros t ds Ht _. exact Ht.
    + intros t ds Ht _. exact Ht.
    + intros t ds t' ds' _ Hr _. apply resetGame_inv in Hr.
      destruct Hr as (c & -> & _). exact One.
    + intros t ds t' ds' Ht _ Hp Hu Hov.
      assert (Hov0 : gameOverHidden t = true).
      { destruct (update_inv _ _ _ _ _ Hp Hu) as (s1 & hit & Hm & Hc & Hrest).
        destruct (moveSnake_inv _ _ _ Hm) as (h & body & _ & E1).
        destruct hit; [destruct Hrest as [-> _]; discriminate Hov|].
        destruct Hrest as (eaten & s2 & rs2 & _ & He & Ho).
        assert (O2 : gameOverHidden t' = gameOverHidden s2).
        { destruct (score s2 >=? 200).
          - apply moveObstacles_frame in Ho. destruct Ho as (o' & -> & _).
            reflexivity.
          - destruct Ho as [-> _]. reflexivity. }
        rewrite <- Hov, O2. destruct eaten.
        - apply eatFood_meta in He. destruct He as (_ & _ & ->).
          rewrite E1. reflexivity.
        - destruct He as [-> _]. rewrite E1. reflexivity. }
      exact (update_tailRepeats n t t' ds ds' (Ht Hov0) Hp Hu Hov).
  - intros _. exact One.
Qed.

(** ** Growth, distinctness and obstacles on concrete games *)

Lemma twoLong_reachable : reachable 20 twoLong.
Proof.
  exists 0, true, [ClickRestart; KeyDown "ArrowRight"; Tick; Tick],
    [tile 11; tile 10; tile 13; tile 10], [].
  split; [unit_draws | reflexivity].
Qed.

Lemma tenMeals_reachable : reachable 20 tenMeals.
Proof.
  exists 0, true,
    [ClickRestart; KeyDown "ArrowRight";
     Tick; Tick; Tick; Tick; Tick; Tick; Tick; Tick; Tick; Tick],
    [tile 11; tile 10; tile 12; tile 10; tile 13; tile 10; tile 14; tile 10;
     tile 15; tile 10; tile 0; tile 0; tile 16; tile 10; tile 17; tile 10;
     tile 18; tile 10; tile 19; tile 10; tile 0; tile 10; tile 5; tile 5;
     tile 3; tile 3], [].
  split; [unit_draws | reflexivity].
Qed.

Lemma growth_after_eating_witness :
  isPaused twoLong = false /\
  moveSnake 20 twoLong = Ok (set_snake [mkCell 13 10; mkCell 12 10] twoLong) /\
  snake twoLong = [] ++ [mkCell 12 10; mkCell 11 10] /\
  (exists s' rs',
      update 20 twoLong [tile 3; tile 3; tile 4; tile 4] = Ok (s', rs')) /\
  update 20 twoLong [tile 3; tile 3; tile 4; tile 4]
  = Ok (threeLong, [tile 4; tile 4]) /\
  length (snake threeLong) = S (length (snake twoLong)) /\
  last (snake threeLong) = Some (mkCell 12 10).
Proof.
  split; [reflexivity|]. split; [reflexivity|]. split; [reflexivity|].
  destruct (growth_after_eating 20 twoLong
              (set_snake [mkCell 13 10; mkCell 12 10] twoLong)
              [tile 3; tile 3; tile 4; tile 4]
              eq_refl eq_refl eq_refl eq_refl) as [G R].
  assert (Z0 : Nat.Even (@length Q [])) by (exists 0%nat; reflexivity).
  split.
  { apply (R [] (tile 3) (tile 3) [] (tile 4) (tile 4) [] eq_refl Z0 Z0);
      [discriminate | reflexivity | reflexivity | left; simpl; lia]. }
  split; [reflexivity|].
  destruct (G threeLong [tile 4; tile 4] eq_refl)
    as (head' & tail' & _ & _ & _ & E4 & E5 & E6 & _).
  split; [exact E4|].
  rewrite E5. f_equal.
  exact (E6 [] (mkCell 12 10) (mkCell 11 10) eq_refl).
Defined.

Lemma snake_body_distinct_witness :
  gameOverHidden tenMeals = true /\
  NoDup (removelast (snake tenMeals)) /\
  (NoDup (snake tenMeals) \/ exists front t, snake tenMeals = front ++ [t; t]).
Proof.
  split; [reflexivity|].
  exact (snake_body_distinct 20 tenMeals tenMeals_reachable eq_refl).
Defined.

Lemma obstacles_distinct_witness :
  obstacles tenMeals = [mkCell 0 0; mkCell 5 5] /\ NoDup (obstacles tenMeals).
Proof.
  split; [reflexivity|].
  exact (obstacles_distinct 20 tenMeals tenMeals_reachable).
Defined.

Lemma tick_keeps_obstacles_witness :
  update 20 fourMeals [tile 0; tile 0; tile 1; tile 0] = Ok (fiveMeals, []) /\
  score fiveMeals < 200 /\
  (length (obstacles fourMeals) <= length (obstacles fiveMeals))%nat /\
  (exists extra, obstacles fiveMeals = obstacles fourMeals ++ extra /\
                 (length extra <= 1)%nat) /\
  update 20 fiveMeals []
  = Ok (set_snake (mkCell 16 10 :: removelast (snake fiveMeals)) fiveMeals, []) /\
  (exists extra, [mkCell 0 0] = obstacles fiveMeals ++ extra /\
                 (length extra <= 1)%nat).
Proof.
  assert (L : score fiveMeals < 200) by (simpl; lia).
  split; [reflexivity|]. split; [exact L|].
  destruct (tick_keeps_obstacles 20 fourMeals fiveMeals
              [tile 0; tile 0; tile 1; tile 0] [] eq_refl) as [A B].
  split; [exact A|]. split; [exact (B L)|].
  split; [reflexivity|].
  exact (proj2 (tick_keeps_obstacles 20 fiveMeals
                  (set_snake (mkCell 16 10 :: removelast (snake fiveMeals)) fiveMeals)
                  [] [] eq_refl) L).
Defined.
